(** * Contact directory: the repository layer of [src/repository/contacts.py]

    A shallow embedding of the seven repository functions
    ([create_contact], [get_contacts], [get_contact], [update_contact],
    [delete_contact], [search_data], [birthday_to_week]) over an explicit
    contact table, together with the part of Python's [datetime] module the
    birthday computation calls. *)

From Stdlib Require Import ZArith List Ascii String Bool Lia Permutation.
Import ListNotations.
Open Scope string_scope.
Open Scope list_scope.
Open Scope Z_scope.

(** ** Python exceptions and results *)

(** The exceptions the modelled code can raise. *)
Inductive exn : Type :=
| ValueError      (* datetime(...) with fields that form no date *)
| OverflowError   (* date + timedelta outside date.min .. date.max *)
| AttributeError  (* .month / .day on a value that is not a date *)
| StatementError. (* sqlalchemy.exc.StatementError or one of its subclasses:
                     db.commit() refused by the column type or the store *)

(** A computation either returns a value or raises. *)
Inductive result (A : Type) : Type :=
| Ok (a : A)
| Raise (e : exn).
Arguments Ok {A} a.
Arguments Raise {A} e.

Definition bind {A B : Type} (m : result A) (k : A -> result B) : result B :=
  match m with
  | Ok a => k a
  | Raise e => Raise e
  end.

Notation "x <- m ;; k" := (bind m (fun x => k))
  (at level 61, m at next level, right associativity).

(** ** The calendar of [datetime.date]

    Follows CPython's [_pydatetime.py]: the proleptic Gregorian calendar,
    years [MINYEAR .. MAXYEAR], day ordinals counted from 0001-01-01 = 1. *)
Module Date.

Record date : Type := mk { year : Z; month : Z; day : Z }.

Definition MINYEAR : Z := 1.
Definition MAXYEAR : Z := 9999.
Definition MAXORDINAL : Z := 3652059. (* date(9999, 12, 31).toordinal() *)

(** [_is_leap]: year -> 1 if leap year, else 0. *)
Definition is_leap (y : Z) : bool :=
  (y mod 4 =? 0) && (negb (y mod 100 =? 0) || (y mod 400 =? 0)).

(** [_DAYS_IN_MONTH], indexed from 1. *)
Definition DAYS_IN_MONTH (m : Z) : Z :=
  match m with
  | 1 => 31 | 2 => 28 | 3 => 31 | 4 => 30 | 5 => 31 | 6 => 30
  | 7 => 31 | 8 => 31 | 9 => 30 | 10 => 31 | 11 => 30 | 12 => 31
  | _ => 0
  end.

(** [_DAYS_BEFORE_MONTH], indexed from 1. *)
Definition DAYS_BEFORE_MONTH (m : Z) : Z :=
  match m with
  | 1 => 0 | 2 => 31 | 3 => 59 | 4 => 90 | 5 => 120 | 6 => 151
  | 7 => 181 | 8 => 212 | 9 => 243 | 10 => 273 | 11 => 304 | 12 => 334
  | _ => 0
  end.

(** [_days_before_year]: number of days before January 1st of year. *)
Definition days_before_year (y : Z) : Z :=
  let y' := y - 1 in y' * 365 + y' / 4 - y' / 100 + y' / 400.

(** [_days_in_month]: number of days in that month in that year. *)
Definition days_in_month (y m : Z) : Z :=
  if (m =? 2) && is_leap y then 29 else DAYS_IN_MONTH m.

(** [_days_before_month]: days in year preceding first day of month. *)
Definition days_before_month (y m : Z) : Z :=
  DAYS_BEFORE_MONTH m + (if (2 <? m) && is_leap y then 1 else 0).

(** [_ymd2ord]: year, month, day -> ordinal. *)
Definition ymd2ord (y m d : Z) : Z :=
  days_before_year y + days_before_month y m + d.

Definition DI400Y : Z := 146097.
Definition DI100Y : Z := 36524.
Definition DI4Y : Z := 1461.

(** [_ord2ymd]: ordinal -> (year, month, day). *)
Definition ord2ymd (n : Z) : date :=
  let n := n - 1 in
  let n400 := n / DI400Y in
  let n := n mod DI400Y in
  let y := n400 * 400 + 1 in
  let n100 := n / DI100Y in
  let n := n mod DI100Y in
  let n4 := n / DI4Y in
  let n := n mod DI4Y in
  let n1 := n / 365 in
  let n := n mod 365 in
  let y := y + n100 * 100 + n4 * 4 + n1 in
  if (n1 =? 4) || (n100 =? 4) then mk (y - 1) 12 31
  else
    let leapyear := (n1 =? 3) && (negb (n4 =? 24) || (n100 =? 3)) in
    let m := Z.shiftr (n + 50) 5 in
    let preceding :=
      DAYS_BEFORE_MONTH m + (if (2 <? m) && leapyear then 1 else 0) in
    if n <? preceding then
      let m := m - 1 in
      let preceding :=
        preceding
        - (DAYS_IN_MONTH m + (if (m =? 2) && leapyear then 1 else 0)) in
      mk y m (n - preceding + 1)
    else mk y m (n - preceding + 1).

(** [_check_date_fields]: the test the [date] and [datetime] constructors
    run on their year, month and day. *)
Definition check_date_fields (y m d : Z) : bool :=
  (MINYEAR <=? y) && (y <=? MAXYEAR)
  && (1 <=? m) && (m <=? 12)
  && (1 <=? d) && (d <=? days_in_month y m).

(** [datetime(year, month, day).date()]: [ValueError] when the fields form
    no date. *)
Definition datetime (y m d : Z) : result date :=
  if check_date_fields y m d then Ok (mk y m d) else Raise ValueError.

(** [date.toordinal]. *)
Definition toordinal (d : date) : Z := ymd2ord (year d) (month d) (day d).

(** [date.__add__] with [timedelta(days=n)]. *)
Definition add_days (d : date) (n : Z) : result date :=
  let o := toordinal d + n in
  if (0 <? o) && (o <=? MAXORDINAL) then Ok (ord2ymd o)
  else Raise OverflowError.

(** [date.__le__]: dates compare as the tuples (year, month, day). *)
Definition leb (a b : date) : bool :=
  (year a <? year b)
  || ((year a =? year b)
      && ((month a <? month b)
          || ((month a =? month b) && (day a <=? day b)))).

(** A record that is a Python [date] object. *)
Definition valid (d : date) : bool :=
  check_date_fields (year d) (month d) (day d).

End Date.

(** ** The data model ([src/database/models.py], [src/schemas.py]) *)

(** The value of a contact's [born_date] column, a nullable [DateTime]:
    NULL or a date.  Only the calendar part of a stored datetime is ever
    read. *)
Inductive born_value : Type :=
| BornNone
| BornDate (d : Date.date).

(** [class User(Base)]: the repository reads nothing but [user.id]. *)
Module User.
Record t : Type := mk { id : Z }.
End User.

(** [class Contact(Base)]: a row of the table "contacts".  Every column but
    the primary key is nullable. *)
Module Contact.
Record t : Type := mk {
  id : Z;
  name : option string;
  lastname : option string;
  email : option string;
  phone : option string;
  born_date : born_value;
  description : option string;
  user_id : option Z
}.

Definition set_name (c : t) (v : option string) : t :=
  mk (id c) v (lastname c) (email c) (phone c) (born_date c)
     (description c) (user_id c).
Definition set_lastname (c : t) (v : option string) : t :=
  mk (id c) (name c) v (email c) (phone c) (born_date c)
     (description c) (user_id c).
Definition set_email (c : t) (v : option string) : t :=
  mk (id c) (name c) (lastname c) v (phone c) (born_date c)
     (description c) (user_id c).
Definition set_phone (c : t) (v : option string) : t :=
  mk (id c) (name c) (lastname c) (email c) v (born_date c)
     (description c) (user_id c).
Definition set_born_date (c : t) (v : born_value) : t :=
  mk (id c) (name c) (lastname c) (email c) (phone c) v
     (description c) (user_id c).
Definition set_description (c : t) (v : option string) : t :=
  mk (id c) (name c) (lastname c) (email c) (phone c) (born_date c)
     v (user_id c).
End Contact.

(** [class ContactModel(BaseModel)]: the validated payload of a create. *)
Module ContactModel.
Record t : Type := mk {
  name : string;
  lastname : string;
  email : string;
  phone : string;
  born_date : Date.date;
  description : option string
}.
End ContactModel.

(** The contact table as the session sees it: the rows in store order and
    the next value of the primary-key sequence.  Every repository function
    commits before it returns, so a call maps a committed table to a
    committed table. *)
Record Session : Type := mkSession {
  rows : list Contact.t;
  next_id : Z
}.

(** ** What the column types and the store do

    [Contact.email] is an [EmailType] column of [sqlalchemy_utils]: what is
    written to it is lower-cased by Python's [str.lower], and a value it is
    compared with is lower-cased by the store's [lower()].  [born_date] is a
    [DateTime] column: a string bound to it is read as a date by the store,
    or the commit is refused.  The store can refuse a row for reasons of its
    own (a string longer than its column, a character it does not take). *)

(** [str.lower] on one character with a code below 256. *)
Definition lower_char (c : ascii) : ascii :=
  let n := Z.of_N (N_of_ascii c) in
  if ((65 <=? n) && (n <=? 90)) || ((192 <=? n) && (n <=? 214))
     || ((216 <=? n) && (n <=? 222))
  then ascii_of_N (N_of_ascii c + 32)
  else c.

(** [str.lower]. *)
Fixpoint lower (s : string) : string :=
  match s with
  | EmptyString => EmptyString
  | String c s' => String (lower_char c) (lower s')
  end.

(** What is left to the store. *)
Record Store : Type := mkStore {
  (** [lower()] of the store, applied to a searched email *)
  sql_lower : string -> string;
  (** a string bound to a [DateTime] column: the date stored, [None] when
      the commit is refused *)
  to_datetime : string -> option Date.date;
  (** the store takes the row as it is about to be written *)
  admits : Contact.t -> bool
}.

(** ** Queries *)

(** [Contact.user_id == user.id]; a NULL owner equals nothing. *)
Definition owned_by (user : User.t) (c : Contact.t) : bool :=
  match Contact.user_id c with
  | Some u => u =? User.id user
  | None => false
  end.

(** A string column compared with a value: false when either side is
    NULL / None. *)
Definition col_eq (col v : option string) : bool :=
  match col, v with
  | Some a, Some b => String.eqb a b
  | _, _ => false
  end.

(** [db.query(Contact).filter(p).all()]. *)
Definition query_all (p : Contact.t -> bool) (db : Session) : list Contact.t :=
  filter p (rows db).

(** [db.query(Contact).filter(p).first()]. *)
Definition query_first (p : Contact.t -> bool) (db : Session)
  : option Contact.t :=
  find p (rows db).

(** [and_(Contact.id == contact_id, Contact.user_id == user.id)]. *)
Definition by_id_owner (contact_id : Z) (user : User.t) (c : Contact.t)
  : bool :=
  (Contact.id c =? contact_id) && owned_by user c.

(** Python truthiness of a [str]-or-[None] argument. *)
Definition truthy (v : option string) : bool :=
  match v with
  | Some (String _ _) => true
  | _ => false
  end.

(** The row the session holds as a mutated object is written back: the
    first row satisfying [p] becomes [c'].  The table keeps the row where it
    was; where a later scan with no ORDER BY meets a written row is the
    store's. *)
Fixpoint replace_first (p : Contact.t -> bool) (c' : Contact.t)
  (l : list Contact.t) : list Contact.t :=
  match l with
  | [] => []
  | c :: l' => if p c then c' :: l' else c :: replace_first p c' l'
  end.

(** [db.delete(item)] for the item [.first()] returned. *)
Fixpoint remove_first (p : Contact.t -> bool) (l : list Contact.t)
  : list Contact.t :=
  match l with
  | [] => []
  | c :: l' => if p c then l' else c :: remove_first p l'
  end.

(** ** The repository functions ([src/repository/contacts.py]) *)

(** [Contact(name=contact.name, ..., user=user)], [db.add], [db.commit] and
    [db.refresh]: the contact returned is read back from the store, with
    the key the store gave it and the email as the [EmailType] column wrote
    it, in lower case. *)
Definition create_contact (contact : ContactModel.t) (user : User.t)
  (db : Session) : Contact.t * Session :=
  let new_contact :=
    Contact.mk (next_id db)
      (Some (ContactModel.name contact))
      (Some (ContactModel.lastname contact))
      (Some (lower (ContactModel.email contact)))
      (Some (ContactModel.phone contact))
      (BornDate (ContactModel.born_date contact))
      (ContactModel.description contact)
      (Some (User.id user)) in
  (new_contact, mkSession (rows db ++ [new_contact]) (next_id db + 1)).

Definition get_contacts (user : User.t) (db : Session) : list Contact.t :=
  query_all (owned_by user) db.

Definition get_contact (contact_id : Z) (user : User.t) (db : Session)
  : option Contact.t :=
  query_first (by_id_owner contact_id user) db.

(** What [target_contact.born_date = born_date] under [if born_date:]
    leaves in the column at the commit: nothing to write for [None] and
    the empty string, the date the store reads from the string, or a
    refused commit. *)
Definition read_born (store : Store) (born_date : option string)
  : result (option born_value) :=
  match born_date with
  | Some (String a s) =>
      match to_datetime store (String a s) with
      | Some d => Ok (Some (BornDate d))
      | None => Raise StatementError
      end
  | Some EmptyString | None => Ok None
  end.

(** The six guarded assignments of [update_contact], as the columns hold
    them after the commit; [born] is what [read_born] gave. *)
Definition assign_fields (target_contact : Contact.t)
  (name lastname email phone : option string) (born : option born_value)
  (description : option string) : Contact.t :=
  let c := target_contact in
  let c := if truthy name then Contact.set_name c name else c in
  let c := if truthy lastname then Contact.set_lastname c lastname else c in
  let c := if truthy email
           then Contact.set_email c (option_map lower email) else c in
  let c := if truthy phone then Contact.set_phone c phone else c in
  let c := match born with
           | Some b => Contact.set_born_date c b
           | None => c
           end in
  let c := if truthy description
           then Contact.set_description c description else c in
  c.

(** One of the guards of [update_contact] let its assignment through. *)
Definition any_assigned
  (name lastname email phone born_date description : option string) : bool :=
  truthy name || truthy lastname || truthy email || truthy phone
  || truthy born_date || truthy description.

(** [db.commit()] writes the row when an assignment was made, and raises
    when the store cannot read the [born_date] string or does not take the
    row; a refused commit leaves the table as it was.  The contact returned
    is read back from the store. *)
Definition update_contact (store : Store) (contact_id : Z) (user : User.t)
  (db : Session)
  (name lastname email phone born_date description : option string)
  : result (option Contact.t * Session) :=
  match query_first (by_id_owner contact_id user) db with
  | None => Ok (None, db)
  | Some target_contact =>
      born <- read_born store born_date ;;
      let target_contact :=
        assign_fields target_contact
          name lastname email phone born description in
      if any_assigned name lastname email phone born_date description
         && negb (admits store target_contact)
      then Raise StatementError
      else
        Ok (Some target_contact,
            mkSession
              (replace_first (by_id_owner contact_id user) target_contact
                 (rows db))
              (next_id db))
  end.

Definition delete_contact (contact_id : Z) (user : User.t) (db : Session)
  : option Contact.t * Session :=
  match query_first (by_id_owner contact_id user) db with
  | Some item =>
      (Some item,
       mkSession (remove_first (by_id_owner contact_id user) (rows db))
                 (next_id db))
  | None => (None, db)
  end.

Definition search_data (store : Store) (user : User.t) (db : Session)
  (name lastname email : option string) : option Contact.t :=
  if truthy name then
    query_first (fun c => col_eq (Contact.name c) name && owned_by user c) db
  else if truthy lastname then
    query_first
      (fun c => col_eq (Contact.lastname c) lastname && owned_by user c) db
  else if truthy email then
    query_first
      (fun c =>
         col_eq (Contact.email c) (option_map (sql_lower store) email)
         && owned_by user c) db
  else None.

(** [user.born_date.month, user.born_date.day]: only a date has them. *)
Definition month_day (b : born_value) : result (Z * Z) :=
  match b with
  | BornDate d => Ok (Date.month d, Date.day d)
  | BornNone => Raise AttributeError
  end.

(** The [for user in users] loop of [birthday_to_week]; [happy_users] is the
    list built so far.  [today] is the reading of [date.today()], taken to
    be the same at every call within one run. *)
Fixpoint birthday_loop (today week : Date.date) (users : list Contact.t)
  (happy_users : list Contact.t) : result (list Contact.t) :=
  match users with
  | [] => Ok happy_users
  | user :: users' =>
      md <- month_day (Contact.born_date user) ;;
      bday <- Date.datetime (Date.year today) (fst md) (snd md) ;;
      birthday_loop today week users'
        (if Date.leb today bday && Date.leb bday week
         then happy_users ++ [user] else happy_users)
  end.

Definition birthday_to_week (today : Date.date) (user : User.t)
  (db : Session) : result (option (list Contact.t)) :=
  let users := query_all (owned_by user) db in
  match users with
  | [] => Ok None
  | _ :: _ =>
      week <- Date.add_days today 6 ;;
      happy_users <- birthday_loop today week users [] ;;
      Ok (Some happy_users)
  end.

(** ** Well-formed tables *)

(** The primary-key constraint, and the key sequence running ahead of every
    key in use. *)
Definition ids (db : Session) : list Z := map Contact.id (rows db).

Definition wf_db (db : Session) : Prop :=
  NoDup (ids db) /\ Forall (fun c => Contact.id c < next_id db) (rows db).

(** What a caller can see of the table: its own rows. *)
Definition restrict (user : User.t) (db : Session) : Session :=
  mkSession (filter (owned_by user) (rows db)) (next_id db).

(** The rows of everybody else. *)
Definition foreign_rows (user : User.t) (db : Session) : list Contact.t :=
  filter (fun c => negb (owned_by user c)) (rows db).

(** A row has a birthday in the year of [today] when its [born_date] is a
    date whose month and day form a date of that year. *)
Definition reanchors (today : Date.date) (c : Contact.t) : bool :=
  match Contact.born_date c with
  | BornDate d =>
      Date.check_date_fields (Date.year today) (Date.month d) (Date.day d)
  | BornNone => false
  end.

(** The birthday of a row, moved to the year of [today], lies in
    [today .. week]. *)
Definition in_window (today week : Date.date) (c : Contact.t) : bool :=
  match Contact.born_date c with
  | BornDate d =>
      let bday := Date.mk (Date.year today) (Date.month d) (Date.day d) in
      Date.leb today bday && Date.leb bday week
  | BornNone => false
  end.

(** The safety of the birthday computation read as a promise of a list:
    whenever every contact of the caller has a birthday that is a date of
    the current year, the call returns a list. *)
Definition always_a_list : Prop :=
  forall today user db,
    forallb (reanchors today) (get_contacts user db) = true ->
    exists happy_users,
      birthday_to_week today user db = Ok (Some happy_users).

(** An argument is given and not empty. *)
Definition supplied (v : option string) : bool :=
  match v with
  | Some s => negb (String.eqb s "")
  | None => false
  end.

(** The one criterion a search applies: the first among name, lastname and
    email that is given and not empty, as the column to read and the value
    to find there; for the email the value is the searched one put in lower
    case by the store. *)
Definition selected (store : Store) (name lastname email : option string)
  : option ((Contact.t -> option string) * option string) :=
  if supplied name then Some (Contact.name, name)
  else if supplied lastname then Some (Contact.lastname, lastname)
  else if supplied email
       then Some (Contact.email, option_map (sql_lower store) email)
  else None.

(** The value an update leaves in a string column: the argument when it is
    given and not empty, else the value the column had. *)
Definition merged (new old : option string) : option string :=
  if supplied new then new else old.

(** The round trip read to the letter: the contact fetched after a create
    holds every field of the payload as the payload has it. *)
Definition round_trip_verbatim : Prop :=
  forall contact user db,
    wf_db db ->
    exists c,
      get_contact (Contact.id (fst (create_contact contact user db))) user
        (snd (create_contact contact user db)) = Some c
      /\ Contact.name c = Some (ContactModel.name contact)
      /\ Contact.lastname c = Some (ContactModel.lastname contact)
      /\ Contact.email c = Some (ContactModel.email contact)
      /\ Contact.phone c = Some (ContactModel.phone contact)
      /\ Contact.born_date c = BornDate (ContactModel.born_date contact)
      /\ Contact.description c = ContactModel.description contact.

(** The truthiness merge read to the letter: whenever the contact is found
    the update returns, and a column whose argument is given and not empty
    holds that very argument afterwards. *)
Definition overwrites_verbatim : Prop :=
  forall store contact_id user db name lastname email phone born_date
         description c,
    get_contact contact_id user db = Some c ->
    exists c' db',
      update_contact store contact_id user db
        name lastname email phone born_date description
      = Ok (Some c', db')
      /\ Contact.name c' = merged name (Contact.name c)
      /\ Contact.lastname c' = merged lastname (Contact.lastname c)
      /\ Contact.email c' = merged email (Contact.email c)
      /\ Contact.phone c' = merged phone (Contact.phone c)
      /\ Contact.description c' = merged description (Contact.description c).

(** A row matches a criterion for a caller: the column holds the value and
    the row is the caller's. *)
Definition matches (sel : Contact.t -> option string) (v : option string)
  (user : User.t) (c : Contact.t) : Prop :=
  sel c = v /\ owned_by user c = true.

(** [r] is the answer of a search on one criterion: the first matching row
    in store order, or nothing when no row matches. *)
Definition first_match (sel : Contact.t -> option string)
  (v : option string) (user : User.t) (db : Session)
  (r : option Contact.t) : Prop :=
  match r with
  | Some c =>
      exists l1 l2,
        rows db = l1 ++ c :: l2
        /\ matches sel v user c
        /\ forall x, In x l1 -> ~ matches sel v user x
  | None => forall x, In x (rows db) -> ~ matches sel v user x
  end.

(** An argument is given: it is not [None]. *)
Definition given (v : option string) : bool :=
  match v with
  | Some _ => true
  | None => false
  end.

(** The one criterion of a search read to the letter, for a reading [sup]
    of "supplied": the first of name, lastname and email that is supplied,
    as the column to read and the very argument to find there. *)
Definition exact_criterion (sup : option string -> bool)
  (name lastname email : option string)
  : option ((Contact.t -> option string) * option string) :=
  if sup name then Some (Contact.name, name)
  else if sup lastname then Some (Contact.lastname, lastname)
  else if sup email then Some (Contact.email, email)
  else None.

(** The search priority read to the letter: the answer is the first row of
    the caller whose column equals the first supplied argument. *)
Definition search_exact (sup : option string -> bool) : Prop :=
  forall store user db name lastname email,
    match exact_criterion sup name lastname email with
    | Some (sel, v) =>
        first_match sel v user db
          (search_data store user db name lastname email)
    | None => True
    end.

(** The absence of an answer read to the letter: nothing is returned
    exactly when nothing is supplied or no row of the caller holds the first
    supplied argument in its column. *)
Definition not_found_exact (sup : option string -> bool) : Prop :=
  forall store user db name lastname email,
    search_data store user db name lastname email = None
    <-> match exact_criterion sup name lastname email with
        | Some (sel, v) =>
            forall x, In x (rows db) -> ~ matches sel v user x
        | None => True
        end.

(** ** Sample data *)

Definition alice : User.t := User.mk 1.
Definition bob : User.t := User.mk 2.

Definition bill_payload : ContactModel.t :=
  ContactModel.mk "Bill" "Fork" "fork_bill@gmail.com" "3800502128506"
    (Date.mk 1990 6 3) (Some "Just friend").

Definition bill : Contact.t :=
  Contact.mk 1 (Some "Bill") (Some "Fork") (Some "fork_bill@gmail.com")
    (Some "3800502128506") (BornDate (Date.mk 1990 6 3))
    (Some "Just friend") (Some 1).

Definition brenda : Contact.t :=
  Contact.mk 2 (Some "Brenda") (Some "Gerard") (Some "breger@gmail.com")
    (Some "3800502128507") (BornDate (Date.mk 1985 6 10)) None (Some 1).

Definition deira : Contact.t :=
  Contact.mk 3 (Some "Deira") (Some "Hadid") (Some "dhadid@gmail.com")
    (Some "3800502128508") (BornDate (Date.mk 1988 1 12))
    (Some "Just strange friend") (Some 2).

(** Born on a leap day. *)
Definition leapling : Contact.t :=
  Contact.mk 4 (Some "Frederic") (Some "Pirate") (Some "fred@penzance.org")
    (Some "3800502128509") (BornDate (Date.mk 2000 2 29)) None (Some 1).

Definition empty_db : Session := mkSession [] 1.
Definition sample_db : Session := mkSession [bill; brenda; deira] 4.
Definition leap_db : Session := mkSession [bill; leapling] 5.
Definition leap_only_db : Session := mkSession [leapling] 5.

(** ** The path operations ([src/routes/contacts.py])

    The body of each path operation, with the session and the authenticated
    user FastAPI injects passed as arguments.  Rate limiting, the checks of
    the declared parameter types and the encoding of the returned value
    belong to the framework and are not part of the bodies. *)

(** What the body of a path operation does: it returns a value, raises an
    [HTTPException], or lets an exception of the repository through. *)
Inductive response (A : Type) : Type :=
| Returns (a : A)
| HTTPException (status_code : Z) (detail : string)
| Uncaught (e : exn).
Arguments Returns {A} a.
Arguments HTTPException {A} status_code detail.
Arguments Uncaught {A} e.

(** [status.HTTP_404_NOT_FOUND]. *)
Definition HTTP_404_NOT_FOUND : Z := 404.

Module routes.

Definition create_new_contact (contact : ContactModel.t) (db : Session)
  (current_user : User.t) : Contact.t * Session :=
  create_contact contact current_user db.

Definition get_all_contacts (db : Session) (current_user : User.t)
  : list Contact.t :=
  get_contacts current_user db.

Definition read_contact (contact_id : Z) (db : Session)
  (current_user : User.t) : response Contact.t :=
  match get_contact contact_id current_user db with
  | None => HTTPException HTTP_404_NOT_FOUND "Not found"
  | Some contact => Returns contact
  end.

Definition update_contact (store : Store) (contact_id : Z) (db : Session)
  (current_user : User.t)
  (name lastname email phone born_date description : option string)
  : response Contact.t * Session :=
  match update_contact store contact_id current_user db
          name lastname email phone born_date description with
  | Raise e => (Uncaught e, db)
  | Ok (None, db') => (HTTPException HTTP_404_NOT_FOUND "NOT FOUND", db')
  | Ok (Some target_contact, db') => (Returns target_contact, db')
  end.

(** The body returns the dictionary [{"message": ...}], here as its list of
    items. *)
Definition delete_contact (contact_id : Z) (db : Session)
  (current_user : User.t) : response (list (string * string)) * Session :=
  let r := delete_contact contact_id current_user db in
  match fst r with
  | None => (HTTPException HTTP_404_NOT_FOUND "Contact not found", snd r)
  | Some _ => (Returns [("message", "Contact Deleted Succesfully")], snd r)
  end.

Definition search_contact (store : Store) (db : Session)
  (current_user : User.t) (name lastname email : option string)
  : response Contact.t :=
  match search_data store current_user db name lastname email with
  | None => HTTPException HTTP_404_NOT_FOUND "Contact not found"
  | Some search_result => Returns search_result
  end.

Definition get_birthday_week (today : Date.date) (db : Session)
  (current_user : User.t) : response (list Contact.t) :=
  match birthday_to_week today current_user db with
  | Raise e => Uncaught e
  | Ok None => HTTPException HTTP_404_NOT_FOUND "Contacts not found"
  | Ok (Some happy_users) => Returns happy_users
  end.

End routes.

(** ** Users ([src/database/models.py], [src/repository/users.py]) *)

(** [class User(Base)] with all its columns; [User.t] above is what the
    contact functions read of it.  [email] and [password] are not nullable;
    [created_at] is the reading of the store's clock at the insert. *)
Module UserRow.
Record t : Type := mk {
  id : Z;
  username : option string;
  email : string;
  password : string;
  created_at : Z;
  avatar : option string;
  refresh_token : option string;
  confirmed : bool
}.

Definition set_avatar (u : t) (v : option string) : t :=
  mk (id u) (username u) (email u) (password u) (created_at u) v
     (refresh_token u) (confirmed u).
Definition set_refresh_token (u : t) (v : option string) : t :=
  mk (id u) (username u) (email u) (password u) (created_at u) (avatar u)
     v (confirmed u).
Definition set_confirmed (u : t) (v : bool) : t :=
  mk (id u) (username u) (email u) (password u) (created_at u) (avatar u)
     (refresh_token u) v.
End UserRow.

(** [class UserModel(BaseModel)]: the payload of a sign-up. *)
Module UserModel.
Record t : Type := mk {
  username : string;
  email : string;
  password : string
}.
End UserModel.

(** The table "users": its rows in store order and the next key. *)
Record UserTable : Type := mkUserTable {
  users : list UserRow.t;
  next_user_id : Z
}.

(** A commit the store refuses: [email] is declared [unique=True]. *)
Inductive store_error : Type := IntegrityError.

(** [User.email == email]. *)
Definition has_email (email : string) (u : UserRow.t) : bool :=
  String.eqb (UserRow.email u) email.

(** The commit of a changed attribute of [user]: the row with the key of
    [user] is written. *)
Definition write_user (user : UserRow.t) (f : UserRow.t -> UserRow.t)
  (db : UserTable) : UserTable :=
  mkUserTable
    (map (fun u => if UserRow.id u =? UserRow.id user then f u else u)
       (users db))
    (next_user_id db).

Definition get_user_by_email (email : string) (db : UserTable)
  : option UserRow.t :=
  find (has_email email) (users db).

(** [gravatar] stands for [Gravatar(body.email).get_image()], an outside
    library; [now] is the store's clock.  Whatever the library raises is
    caught and leaves the avatar [None]. *)
Definition create_user (gravatar : string -> result string) (now : Z)
  (body : UserModel.t) (db : UserTable)
  : (UserRow.t * UserTable) + store_error :=
  let avatar :=
    match gravatar (UserModel.email body) with
    | Ok url => Some url
    | Raise _ => None
    end in
  let new_user :=
    UserRow.mk (next_user_id db)
      (Some (UserModel.username body)) (UserModel.email body)
      (UserModel.password body) now avatar None false in
  if existsb (has_email (UserModel.email body)) (users db)
  then inr IntegrityError
  else inl (new_user,
            mkUserTable (users db ++ [new_user]) (next_user_id db + 1)).

Definition update_token (user : UserRow.t) (token : option string)
  (db : UserTable) : UserTable :=
  write_user user (fun u => UserRow.set_refresh_token u token) db.

(** [user.confirmed = True] on the [None] a failed lookup returned raises
    [AttributeError]. *)
Definition confirmed_email (email : string) (db : UserTable)
  : result UserTable :=
  match get_user_by_email email db with
  | None => Raise AttributeError
  | Some user =>
      Ok (write_user user (fun u => UserRow.set_confirmed u true) db)
  end.

Definition update_avatar (email url : string) (db : UserTable)
  : result (UserRow.t * UserTable) :=
  match get_user_by_email email db with
  | None => Raise AttributeError
  | Some user =>
      Ok (UserRow.set_avatar user (Some url),
          write_user user (fun u => UserRow.set_avatar u (Some url)) db)
  end.

(** The columns a sign-up fills and no later call of this module writes. *)
Definition credentials (u : UserRow.t)
  : Z * option string * string * string * Z :=
  (UserRow.id u, UserRow.username u, UserRow.email u, UserRow.password u,
   UserRow.created_at u).

(** The constraints of the table "users": keys and emails are unique, and
    the key sequence runs ahead of the keys in use. *)
Definition wf_users (db : UserTable) : Prop :=
  NoDup (map UserRow.id (users db))
  /\ NoDup (map UserRow.email (users db))
  /\ Forall (fun u => UserRow.id u < next_user_id db) (users db).

(** Sample users. *)
Definition ann : UserRow.t :=
  UserRow.mk 1 (Some "annie") "ann@example.com" "secret1" 100 None None
    false.

Definition ben : UserRow.t :=
  UserRow.mk 2 (Some "benny") "ben@example.com" "secret2" 200
    (Some "https://www.gravatar.com/avatar/ben") (Some "token-ben") true.

Definition sample_users : UserTable := mkUserTable [ann; ben] 3.

Definition carl_signup : UserModel.t :=
  UserModel.mk "carlo" "carl@example.com" "secret3".

(** ** The checks of a contact payload ([src/schemas.py])

    Strings are those of this development: sequences of characters with
    codes below 256. *)

(** The patterns the phone check is written with. *)
Inductive regex : Type :=
| Lit (c : ascii)              (* the character itself *)
| Digit                        (* \d *)
| Space                        (* \s *)
| Cat (r1 r2 : regex)          (* r1 r2 *)
| Opt (r : regex)              (* r? *)
| Rep (n m : nat) (r : regex). (* r{n,m} *)

(** [\d]: the decimal digits. *)
Definition is_digit (c : ascii) : bool :=
  let n := Z.of_N (N_of_ascii c) in (48 <=? n) && (n <=? 57).

(** [\s]: the characters [str.isspace] accepts. *)
Definition is_space (c : ascii) : bool :=
  let n := Z.of_N (N_of_ascii c) in
  ((9 <=? n) && (n <=? 13)) || ((28 <=? n) && (n <=? 32))
  || (n =? 133) || (n =? 160).

(** One character of a class at the head of the string. *)
Definition one (p : ascii -> bool) (s : string) : list string :=
  match s with
  | String a s' => if p a then [s'] else []
  | EmptyString => []
  end.

(** [f] exactly [n] times in a row. *)
Fixpoint times (f : string -> list string) (n : nat) (s : string)
  : list string :=
  match n with
  | O => [s]
  | S n' => flat_map (times f n') (f s)
  end.

(** [f] at most [k] times in a row, the longer runs first. *)
Fixpoint upto (f : string -> list string) (k : nat) (s : string)
  : list string :=
  match k with
  | O => [s]
  | S k' => flat_map (upto f k') (f s) ++ [s]
  end.

(** The backtracking matcher: what is left of [s] after each way [r]
    matches at its start, in the order the ways are tried. *)
Fixpoint try_match (r : regex) (s : string) : list string :=
  match r with
  | Lit c => one (Ascii.eqb c) s
  | Digit => one is_digit s
  | Space => one is_space s
  | Cat r1 r2 => flat_map (try_match r2) (try_match r1 s)
  | Opt r' => try_match r' s ++ [s]
  | Rep n m r' => flat_map (upto (try_match r') (m - n)) (times (try_match r') n s)
  end.

(** [re.match(r, s)]: [None] when [r] matches at the start of [s] in no
    way; of the match object, what follows the match. *)
Definition re_match (r : regex) (s : string) : option string :=
  hd_error (try_match r s).

(** The pattern of the phone check, with the start anchor [re.match]
    already implies:
    [\+?\d{2,3}\(?\d{2,3}\)?\s?(\d{2,3}\-?){2}\d{2,3}]. *)
Definition phone_pattern : regex :=
  Cat (Opt (Lit "+"))
    (Cat (Rep 2 3 Digit)
       (Cat (Opt (Lit "("))
          (Cat (Rep 2 3 Digit)
             (Cat (Opt (Lit ")"))
                (Cat (Opt Space)
                   (Cat (Rep 2 2 (Cat (Rep 2 3 Digit) (Opt (Lit "-"))))
                      (Rep 2 3 Digit))))))).

(** [ContactModel.phone_number_must_have_12_digits]. *)
Definition phone_number_must_have_12_digits (phone : string)
  : result string :=
  match re_match phone_pattern phone with
  | None => Raise ValueError
  | Some _ => Ok phone
  end.

(** [Field(min_length=lo, max_length=hi)]. *)
Definition length_between (lo hi : nat) (s : string) : bool :=
  Nat.leb lo (String.length s) && Nat.leb (String.length s) hi.

(** The fields of [class ContactModel] all pass their checks.  [email_str]
    stands for the syntax check of [EmailStr], an outside library; the date
    is one already. *)
Definition ContactModel_valid (email_str : string -> bool)
  (contact : ContactModel.t) : bool :=
  length_between 3 50 (ContactModel.name contact)
  && length_between 3 50 (ContactModel.lastname contact)
  && email_str (ContactModel.email contact)
  && Nat.leb (String.length (ContactModel.email contact)) 50
  && length_between 12 20 (ContactModel.phone contact)
  && match phone_number_must_have_12_digits (ContactModel.phone contact) with
     | Ok _ => true
     | Raise _ => false
     end
  && match ContactModel.description contact with
     | None => true
     | Some d => Nat.leb (String.length d) 250
     end.

(** The number of decimal digits of a string. *)
Fixpoint digits (s : string) : nat :=
  match s with
  | EmptyString => O
  | String a s' => ((if is_digit a then 1 else 0) + digits s')%nat
  end.

(** The least number of decimal digits in a match of a pattern. *)
Fixpoint min_digits (r : regex) : nat :=
  match r with
  | Lit _ | Space | Opt _ => O
  | Digit => 1%nat
  | Cat r1 r2 => (min_digits r1 + min_digits r2)%nat
  | Rep n _ r' => (n * min_digits r')%nat
  end.

(** A matcher consumes a prefix holding at least [k] digits. *)
Definition eats (k : nat) (f : string -> list string) : Prop :=
  forall s rest, In rest (f s) ->
    exists p, s = (p ++ rest)%string /\ (k <= digits p)%nat.

(** A matcher never looks past what it consumes. *)
Definition local (f : string -> list string) : Prop :=
  forall s rest t, In rest (f s) -> In (rest ++ t)%string (f (s ++ t)%string).

(** ** Sample stores *)

(** The value of a decimal digit. *)
Definition digit_value (c : ascii) : Z := Z.of_N (N_of_ascii c) - 48.

(** A string of the form YYYY-MM-DD that names a date, as that date. *)
Definition iso_date (s : string) : option Date.date :=
  match s with
  | String y1 (String y2 (String y3 (String y4 (String sep1
      (String m1 (String m2 (String sep2
        (String d1 (String d2 EmptyString))))))))) =>
      let y := digit_value y1 * 1000 + digit_value y2 * 100
               + digit_value y3 * 10 + digit_value y4 in
      let m := digit_value m1 * 10 + digit_value m2 in
      let d := digit_value d1 * 10 + digit_value d2 in
      if forallb is_digit [y1; y2; y3; y4; m1; m2; d1; d2]
         && Ascii.eqb sep1 "-" && Ascii.eqb sep2 "-"
         && Date.check_date_fields y m d
      then Some (Date.mk y m d)
      else None
  | _ => None
  end.

(** A store that puts a searched email in lower case as Python does, reads
    the strings YYYY-MM-DD as dates and takes every row. *)
Definition reading_store : Store := mkStore lower iso_date (fun _ => true).

(** A store that reads no string as a date. *)
Definition refusing_store : Store :=
  mkStore lower (fun _ => None) (fun _ => true).

(** A payload with capitals in its email. *)
Definition fork_payload : ContactModel.t :=
  ContactModel.mk "Bill" "Fork" "Fork_Bill@gmail.com" "3800502128506"
    (Date.mk 1990 6 3) (Some "Just friend").

(** ** Sequences of calls *)

(** A call of one of the three repository functions that write. *)
Inductive call : Type :=
| CreateContact (contact : ContactModel.t) (user : User.t)
| UpdateContact (contact_id : Z) (user : User.t)
    (name lastname email phone born_date description : option string)
| DeleteContact (contact_id : Z) (user : User.t).

(** The table a call leaves; an update whose commit is refused leaves the
    table it was given. *)
Definition step (store : Store) (db : Session) (c : call) : Session :=
  match c with
  | CreateContact contact user => snd (create_contact contact user db)
  | UpdateContact contact_id user n l e p b d =>
      match update_contact store contact_id user db n l e p b d with
      | Ok r => snd r
      | Raise _ => db
      end
  | DeleteContact contact_id user => snd (delete_contact contact_id user db)
  end.

(** The table a sequence of calls leaves, first call first. *)
Definition run (store : Store) (calls : list call) (db : Session)
  : Session :=
  fold_left (step store) calls db.

(** A row as the repository functions write it: owned by somebody, with a
    name, a lastname, an email, a phone and a birth date. *)
Definition row_filled (c : Contact.t) : Prop :=
  Contact.user_id c <> None
  /\ Contact.name c <> None /\ Contact.lastname c <> None
  /\ Contact.email c <> None /\ Contact.phone c <> None
  /\ Contact.born_date c <> BornNone.

(** ** Birthdays that are no date of the year *)

(** The [born_date] of a row is a date, and a date of the calendar. *)
Definition born_is_date (c : Contact.t) : bool :=
  match Contact.born_date c with
  | BornDate d => Date.valid d
  | BornNone => false
  end.

(** The row was born on February 29 and the year of [today] is no leap
    year. *)
Definition leap_day_in_common_year (today : Date.date) (c : Contact.t)
  : bool :=
  match Contact.born_date c with
  | BornDate d =>
      (Date.month d =? 2) && (Date.day d =? 29)
      && negb (Date.is_leap (Date.year today))
  | BornNone => false
  end.

(** The month and day of the row are not before those of [today]. *)
Definition not_before (today : Date.date) (c : Contact.t) : bool :=
  match Contact.born_date c with
  | BornDate d =>
      (Date.month today <? Date.month d)
      || ((Date.month today =? Date.month d)
          && (Date.day today <=? Date.day d))
  | BornNone => false
  end.

(** A table for the turn of the year: one contact born on January 2, one
    on December 30. *)
Definition january : Contact.t :=
  Contact.mk 1 (Some "Janus") (Some "Bifrons") (Some "janus@rome.it")
    (Some "3800502128510") (BornDate (Date.mk 1991 1 2)) None (Some 1).

Definition december : Contact.t :=
  Contact.mk 2 (Some "Silvester") (Some "Primus") (Some "silvester@rome.it")
    (Some "3800502128511") (BornDate (Date.mk 1987 12 30)) None (Some 1).

Definition newyear_db : Session := mkSession [january; december] 3.

(** ** The calendar on sample days *)

Example add_days_june :
  Date.add_days (Date.mk 2024 6 1) 6 = Ok (Date.mk 2024 6 7).
Proof. reflexivity. Qed.

Example add_days_year_end :
  Date.add_days (Date.mk 2024 12 29) 6 = Ok (Date.mk 2025 1 4).
Proof. reflexivity. Qed.

Example add_days_feb_leap :
  Date.add_days (Date.mk 2024 2 25) 6 = Ok (Date.mk 2024 3 2).
Proof. reflexivity. Qed.

Example add_days_feb_common :
  Date.add_days (Date.mk 2023 2 25) 6 = Ok (Date.mk 2023 3 3).
Proof. reflexivity. Qed.

Example add_days_overflow :
  Date.add_days (Date.mk 9999 12 26) 6 = Raise OverflowError.
Proof. reflexivity. Qed.

Example add_days_last :
  Date.add_days (Date.mk 9999 12 25) 6 = Ok (Date.mk 9999 12 31).
Proof. reflexivity. Qed.

(** ** Facts about scans of the table *)

Section Scans.
Variables p q : Contact.t -> bool.
Hypothesis p_in_q : forall c, p c = true -> q c = true.

Lemma find_filter (l : list Contact.t) : find p (filter q l) = find p l.
Proof.
  induction l as [|c l IH]; simpl; [reflexivity|].
  destruct (q c) eqn:Hq; simpl.
  - now rewrite IH.
  - destruct (p c) eqn:Hp; [|exact IH].
    apply p_in_q in Hp. congruence.
Qed.

Lemma find_none_all (l : list Contact.t) :
  (forall c, In c l -> p c = false) -> find p l = None.
Proof.
  induction l as [|c l IH]; simpl; intros H; [reflexivity|].
  rewrite (H c (or_introl eq_refl)). apply IH. intros; apply H; now right.
Qed.

(** The first match splits the table around itself. *)
Lemma find_split (l : list Contact.t) (c : Contact.t) :
  find p l = Some c ->
  exists l1 l2,
    l = l1 ++ c :: l2 /\ p c = true /\ forallb (fun x => negb (p x)) l1 = true.
Proof.
  induction l as [|x l IH]; simpl; [discriminate|].
  destruct (p x) eqn:Hp; intros H.
  - injection H as <-. exists [], l. now repeat split.
  - destruct (IH H) as (l1 & l2 & -> & Hc & Hl1).
    exists (x :: l1), l2. simpl. rewrite Hp. now repeat split.
Qed.

Lemma find_app_skip (l1 l2 : list Contact.t) :
  forallb (fun x => negb (p x)) l1 = true ->
  find p (l1 ++ l2) = find p l2.
Proof.
  induction l1 as [|x l1 IH]; simpl; [reflexivity|].
  intros H. apply andb_prop in H as [Hx H].
  apply negb_true_iff in Hx. rewrite Hx. now apply IH.
Qed.

Lemma replace_first_split (l1 l2 : list Contact.t) (c c' : Contact.t) :
  forallb (fun x => negb (p x)) l1 = true -> p c = true ->
  replace_first p c' (l1 ++ c :: l2) = l1 ++ c' :: l2.
Proof.
  induction l1 as [|x l1 IH]; simpl; intros H Hc.
  - now rewrite Hc.
  - apply andb_prop in H as [Hx H]. apply negb_true_iff in Hx.
    rewrite Hx. now rewrite IH.
Qed.

Lemma remove_first_split (l1 l2 : list Contact.t) (c : Contact.t) :
  forallb (fun x => negb (p x)) l1 = true -> p c = true ->
  remove_first p (l1 ++ c :: l2) = l1 ++ l2.
Proof.
  induction l1 as [|x l1 IH]; simpl; intros H Hc.
  - now rewrite Hc.
  - apply andb_prop in H as [Hx H]. apply negb_true_iff in Hx.
    rewrite Hx. now rewrite IH.
Qed.

Lemma replace_first_none (l : list Contact.t) (c' : Contact.t) :
  find p l = None -> replace_first p c' l = l.
Proof.
  induction l as [|x l IH]; simpl; [reflexivity|].
  destruct (p x); [discriminate|]. intros H. now rewrite IH.
Qed.

Lemma remove_first_none (l : list Contact.t) :
  find p l = None -> remove_first p l = l.
Proof.
  induction l as [|x l IH]; simpl; [reflexivity|].
  destruct (p x); [discriminate|]. intros H. now rewrite IH.
Qed.

Lemma forallb_filter_skip (l1 : list Contact.t) :
  forallb (fun x => negb (p x)) l1 = true ->
  forallb (fun x => negb (p x)) (filter q l1) = true.
Proof.
  induction l1 as [|x l1 IH]; simpl; [reflexivity|].
  intros H. apply andb_prop in H as [Hx H].
  destruct (q x); simpl; [rewrite Hx|]; now apply IH.
Qed.

(** Writing a row back commutes with the owner's view of the table. *)
Lemma filter_replace_first (l : list Contact.t) (c c' : Contact.t) :
  find p l = Some c -> q c' = true ->
  filter q (replace_first p c' l) = replace_first p c' (filter q l)
  /\ filter (fun x => negb (q x)) (replace_first p c' l)
     = filter (fun x => negb (q x)) l.
Proof.
  intros Hf Hq'. destruct (find_split l c Hf) as (l1 & l2 & -> & Hc & Hl1).
  rewrite (replace_first_split _ _ _ _ Hl1 Hc).
  rewrite !filter_app. simpl.
  rewrite (p_in_q c Hc), Hq'. simpl. split; [|reflexivity].
  symmetry. apply replace_first_split; [|exact Hc].
  now apply forallb_filter_skip.
Qed.

Lemma filter_remove_first (l : list Contact.t) (c : Contact.t) :
  find p l = Some c ->
  filter q (remove_first p l) = remove_first p (filter q l)
  /\ filter (fun x => negb (q x)) (remove_first p l)
     = filter (fun x => negb (q x)) l.
Proof.
  intros Hf. destruct (find_split l c Hf) as (l1 & l2 & -> & Hc & Hl1).
  rewrite (remove_first_split _ _ _ Hl1 Hc).
  rewrite !filter_app. simpl.
  rewrite (p_in_q c Hc). simpl. split; [|reflexivity].
  symmetry. apply remove_first_split; [|exact Hc].
  now apply forallb_filter_skip.
Qed.
End Scans.

Lemma filter_idem (q : Contact.t -> bool) (l : list Contact.t) :
  filter q (filter q l) = filter q l.
Proof.
  induction l as [|c l IH]; simpl; [reflexivity|].
  destruct (q c) eqn:Hq; simpl; [rewrite Hq, IH|]; easy.
Qed.

(** Under the primary-key constraint a key names one row. *)
Lemma id_names_one_row (l : list Contact.t) (c c' : Contact.t) :
  NoDup (map Contact.id l) -> In c l -> In c' l ->
  Contact.id c = Contact.id c' -> c = c'.
Proof.
  induction l as [|x l IH]; simpl; [easy|].
  intros Hnd Hc Hc' Hid. inversion Hnd as [|? ? Hx Hnd']; subst.
  destruct Hc as [<-|Hc], Hc' as [<-|Hc']; auto.
  - exfalso. apply Hx. rewrite Hid. now apply in_map.
  - exfalso. apply Hx. rewrite <- Hid. now apply in_map.
Qed.

(** ** Facts about the repository functions *)

Lemma by_id_owner_owned (contact_id : Z) (user : User.t) (c : Contact.t) :
  by_id_owner contact_id user c = true -> owned_by user c = true.
Proof. unfold by_id_owner. intros H. now apply andb_prop in H. Qed.

Lemma by_id_owner_id (contact_id : Z) (user : User.t) (c : Contact.t) :
  by_id_owner contact_id user c = true -> Contact.id c = contact_id.
Proof.
  unfold by_id_owner. intros H. apply andb_prop in H as [H _].
  now apply Z.eqb_eq.
Qed.

Lemma owned_by_other (A B : User.t) (c : Contact.t) :
  owned_by A c = true -> A <> B -> owned_by B c = false.
Proof.
  unfold owned_by. destruct A as [a], B as [b], (Contact.user_id c) as [u|];
    simpl; [|discriminate].
  intros Hu Hab. apply Z.eqb_eq in Hu. subst u.
  apply Z.eqb_neq. intros ->. now apply Hab.
Qed.

(** The guarded assignments touch neither the key nor the owner. *)
Lemma assign_fields_id (c : Contact.t) (n l e p : option string)
  (b : option born_value) (d : option string) :
  Contact.id (assign_fields c n l e p b d) = Contact.id c.
Proof.
  unfold assign_fields.
  destruct (truthy n), (truthy l), (truthy e), (truthy p), b,
    (truthy d); reflexivity.
Qed.

Lemma assign_fields_user_id (c : Contact.t) (n l e p : option string)
  (b : option born_value) (d : option string) :
  Contact.user_id (assign_fields c n l e p b d) = Contact.user_id c.
Proof.
  unfold assign_fields.
  destruct (truthy n), (truthy l), (truthy e), (truthy p), b,
    (truthy d); reflexivity.
Qed.

Lemma assign_fields_owned (user : User.t) (c : Contact.t)
  (n l e p : option string) (b : option born_value) (d : option string) :
  owned_by user (assign_fields c n l e p b d) = owned_by user c.
Proof. unfold owned_by. now rewrite assign_fields_user_id. Qed.

Lemma assign_fields_by_id_owner (contact_id : Z) (user : User.t)
  (c : Contact.t) (n l e p : option string) (b : option born_value)
  (d : option string) :
  by_id_owner contact_id user (assign_fields c n l e p b d)
  = by_id_owner contact_id user c.
Proof.
  unfold by_id_owner. now rewrite assign_fields_id, assign_fields_owned.
Qed.

(** What an update does, by whether the contact is found, the store reads
    the [born_date] string and takes the row. *)
Lemma update_contact_cases (store : Store) (contact_id : Z) (user : User.t)
  (db : Session) (n l e p b d : option string) :
  match get_contact contact_id user db with
  | None => update_contact store contact_id user db n l e p b d = Ok (None, db)
  | Some c =>
      exists l1 l2,
        rows db = l1 ++ c :: l2
        /\ forallb (fun x => negb (by_id_owner contact_id user x)) l1 = true
        /\ by_id_owner contact_id user c = true
        /\ match read_born store b with
           | Raise err =>
               err = StatementError
               /\ update_contact store contact_id user db n l e p b d
                  = Raise StatementError
           | Ok born =>
               update_contact store contact_id user db n l e p b d
               = if any_assigned n l e p b d
                    && negb (admits store (assign_fields c n l e p born d))
                 then Raise StatementError
                 else Ok (Some (assign_fields c n l e p born d),
                          mkSession
                            (l1 ++ assign_fields c n l e p born d :: l2)
                            (next_id db))
           end
  end.
Proof.
  unfold get_contact, update_contact, query_first.
  destruct (find (by_id_owner contact_id user) (rows db)) as [c|] eqn:Hf;
    [|reflexivity].
  destruct (find_split _ _ _ Hf) as (l1 & l2 & Hl & Hc & Hl1).
  exists l1, l2. repeat split; try assumption.
  destruct (read_born store b) as [born|err] eqn:Hb; cbn [bind].
  - destruct (any_assigned n l e p b d && negb (admits store _));
      [reflexivity|].
    rewrite Hl at 1. now rewrite (replace_first_split _ _ _ _ _ Hl1 Hc).
  - assert (err = StatementError) as ->; [|now split].
    unfold read_born in Hb. destruct b as [[|a s]|]; try discriminate.
    destruct (to_datetime store (String a s)); congruence.
Qed.

Lemma get_contact_sound (contact_id : Z) (user : User.t) (db : Session)
  (c : Contact.t) :
  get_contact contact_id user db = Some c ->
  In c (rows db) /\ Contact.id c = contact_id /\ owned_by user c = true.
Proof.
  unfold get_contact, query_first. intros H.
  apply find_some in H as [Hin Hp]. repeat split; auto.
  - eapply by_id_owner_id; eassumption.
  - eapply by_id_owner_owned; eassumption.
Qed.

Lemma get_contact_restrict (contact_id : Z) (user : User.t) (db : Session) :
  get_contact contact_id user (restrict user db)
  = get_contact contact_id user db.
Proof.
  unfold get_contact, query_first, restrict. simpl.
  apply find_filter. intros c. apply by_id_owner_owned.
Qed.

Lemma search_data_restrict (store : Store) (user : User.t) (db : Session)
  (name lastname email : option string) :
  search_data store user (restrict user db) name lastname email
  = search_data store user db name lastname email.
Proof.
  unfold search_data, query_first, restrict. simpl.
  destruct (truthy name); [|destruct (truthy lastname);
                            [|destruct (truthy email); [|reflexivity]]];
    apply find_filter; intros c H; now apply andb_prop in H.
Qed.

Lemma birthday_to_week_restrict (today : Date.date) (user : User.t)
  (db : Session) :
  birthday_to_week today user (restrict user db)
  = birthday_to_week today user db.
Proof.
  unfold birthday_to_week, query_all, restrict. simpl.
  now rewrite filter_idem.
Qed.

Lemma update_contact_restrict (store : Store) (contact_id : Z)
  (user : User.t) (db : Session) (n l e p b d : option string) :
  match update_contact store contact_id user db n l e p b d with
  | Ok r =>
      update_contact store contact_id user (restrict user db) n l e p b d
      = Ok (fst r, restrict user (snd r))
      /\ foreign_rows user (snd r) = foreign_rows user db
  | Raise err =>
      update_contact store contact_id user (restrict user db) n l e p b d
      = Raise err
  end.
Proof.
  unfold update_contact, query_first.
  change (find (by_id_owner contact_id user) (rows (restrict user db)))
    with (get_contact contact_id user (restrict user db)).
  rewrite get_contact_restrict. unfold get_contact, query_first.
  destruct (find (by_id_owner contact_id user) (rows db)) as [c|] eqn:Hf;
    simpl; [|split; reflexivity].
  destruct (read_born store b) as [born|err]; cbn [bind]; [|reflexivity].
  destruct (any_assigned n l e p b d && negb (admits store _));
    [reflexivity|].
  assert (Hq : owned_by user (assign_fields c n l e p born d) = true).
  { rewrite assign_fields_owned. eapply by_id_owner_owned.
    apply find_some in Hf. apply Hf. }
  destruct (filter_replace_first (by_id_owner contact_id user) (owned_by user)
              (by_id_owner_owned contact_id user) (rows db) c
              (assign_fields c n l e p born d) Hf Hq) as [H1 H2].
  unfold restrict, foreign_rows. simpl. rewrite H1. now split.
Qed.

Lemma delete_contact_restrict (contact_id : Z) (user : User.t)
  (db : Session) :
  let r := delete_contact contact_id user db in
  delete_contact contact_id user (restrict user db)
  = (fst r, restrict user (snd r))
  /\ foreign_rows user (snd r) = foreign_rows user db.
Proof.
  unfold delete_contact, query_first. cbn zeta.
  change (find (by_id_owner contact_id user) (rows (restrict user db)))
    with (get_contact contact_id user (restrict user db)).
  rewrite get_contact_restrict. unfold get_contact, query_first.
  destruct (find (by_id_owner contact_id user) (rows db)) as [c|] eqn:Hf;
    simpl; [|split; reflexivity].
  destruct (filter_remove_first (by_id_owner contact_id user) (owned_by user)
              (by_id_owner_owned contact_id user) (rows db) c Hf) as [H1 H2].
  unfold restrict, foreign_rows. simpl. rewrite H1. now split.
Qed.

(** *** C1 *)

(** C1 (ownership isolation).  Under the primary-key constraint, a contact
    [c] of owner [A] is not found by [get_contact] called for another owner
    [B], and [c] is no row of what [B] sees of the table.  Every operation
    called for [B] is blind to the rows of others: [get_contact],
    [search_data] and [birthday_to_week] return what they return on [B]'s
    own rows alone, a found contact is a row owned by [B], and
    [update_contact] and [delete_contact] act on [B]'s own rows as they
    would with no other row present and leave the rows of everybody else as
    they were; an update whose commit the store refuses is refused alike
    with no other row present, and writes nothing.  This holds whatever the
    store. *)
Theorem ownership_isolation (store : Store) (db : Session) (A B : User.t)
  (c : Contact.t) :
  NoDup (ids db) -> In c (rows db) -> owned_by A c = true -> A <> B ->
  get_contact (Contact.id c) B db = None
  /\ ~ In c (rows (restrict B db))
  /\ (forall contact_id,
        get_contact contact_id B db
        = get_contact contact_id B (restrict B db))
  /\ (forall contact_id r,
        get_contact contact_id B db = Some r ->
        In r (rows db) /\ Contact.id r = contact_id /\ owned_by B r = true)
  /\ (forall name lastname email,
        search_data store B db name lastname email
        = search_data store B (restrict B db) name lastname email)
  /\ (forall today,
        birthday_to_week today B db
        = birthday_to_week today B (restrict B db))
  /\ (forall contact_id n l e p b d,
        match update_contact store contact_id B db n l e p b d with
        | Ok r =>
            update_contact store contact_id B (restrict B db) n l e p b d
            = Ok (fst r, restrict B (snd r))
            /\ foreign_rows B (snd r) = foreign_rows B db
        | Raise err =>
            update_contact store contact_id B (restrict B db) n l e p b d
            = Raise err
        end)
  /\ (forall contact_id,
        let r := delete_contact contact_id B db in
        delete_contact contact_id B (restrict B db)
        = (fst r, restrict B (snd r))
        /\ foreign_rows B (snd r) = foreign_rows B db).
Proof.
  intros Hnd Hin HA HAB.
  pose proof (owned_by_other A B c HA HAB) as HB.
  split; [|split; [|split; [|split; [|split; [|split; [|split]]]]]].
  - unfold get_contact, query_first. apply find_none_all.
    intros x Hx. unfold by_id_owner.
    destruct (Contact.id x =? Contact.id c) eqn:Hid; [|reflexivity].
    apply Z.eqb_eq in Hid.
    rewrite (id_names_one_row (rows db) x c Hnd Hx Hin Hid). exact HB.
  - unfold restrict. simpl. rewrite filter_In. intros [_ H]. congruence.
  - intros. symmetry. apply get_contact_restrict.
  - intros contact_id r Hr. now apply get_contact_sound.
  - intros. symmetry. apply search_data_restrict.
  - intros. symmetry. apply birthday_to_week_restrict.
  - intros. apply update_contact_restrict.
  - intros. apply delete_contact_restrict.
Qed.

Lemma sample_db_keys : NoDup (ids sample_db).
Proof.
  unfold ids. simpl. repeat constructor; simpl; intuition discriminate.
Defined.

Lemma ownership_isolation_witness :
  NoDup (ids sample_db) /\ In deira (rows sample_db)
  /\ owned_by bob deira = true /\ bob <> alice
  /\ get_contact (Contact.id deira) alice sample_db = None.
Proof.
  assert (Hin : In deira (rows sample_db)) by (simpl; auto).
  assert (Hne : bob <> alice) by discriminate.
  exact (conj sample_db_keys (conj Hin (conj eq_refl (conj Hne
           (proj1 (ownership_isolation reading_store sample_db bob alice
                     deira sample_db_keys Hin eq_refl Hne)))))).
Defined.

Lemma find_replace_first (p : Contact.t -> bool) (l : list Contact.t)
  (c c' : Contact.t) :
  find p l = Some c -> p c' = true -> find p (replace_first p c' l) = Some c'.
Proof.
  intros Hf Hp'. destruct (find_split p l c Hf) as (l1 & l2 & -> & Hc & Hl1).
  rewrite (replace_first_split p _ _ _ _ Hl1 Hc).
  rewrite (find_app_skip p _ _ Hl1). simpl. now rewrite Hp'.
Qed.

Lemma replace_first_same (p : Contact.t -> bool) (l : list Contact.t)
  (c : Contact.t) :
  find p l = Some c -> replace_first p c l = l.
Proof.
  intros Hf. destruct (find_split p l c Hf) as (l1 & l2 & -> & Hc & Hl1).
  now apply replace_first_split.
Qed.

Lemma session_eta (db : Session) : mkSession (rows db) (next_id db) = db.
Proof. now destruct db. Qed.

(** *** C3 *)

Lemma truthy_supplied (v : option string) : truthy v = supplied v.
Proof. destruct v as [[|a s]|]; reflexivity. Qed.

Lemma supplied_lower (v : option string) :
  supplied (option_map lower v) = supplied v.
Proof. destruct v as [[|a s]|]; reflexivity. Qed.

Lemma read_born_cases (store : Store) (born_date : option string) :
  match read_born store born_date with
  | Ok None => supplied born_date = false
  | Ok (Some b) =>
      supplied born_date = true
      /\ exists s d,
           born_date = Some s /\ to_datetime store s = Some d
           /\ b = BornDate d
  | Raise err =>
      err = StatementError /\ supplied born_date = true
      /\ exists s, born_date = Some s /\ to_datetime store s = None
  end.
Proof.
  unfold read_born. destruct born_date as [[|a s]|]; try reflexivity.
  destruct (to_datetime store (String a s)) as [d|] eqn:Hd.
  - split; [reflexivity|]. now exists (String a s), d.
  - repeat split. now exists (String a s).
Qed.

Lemma assign_fields_columns (c : Contact.t) (n l e p : option string)
  (b : option born_value) (d : option string) :
  Contact.name (assign_fields c n l e p b d) = merged n (Contact.name c)
  /\ Contact.lastname (assign_fields c n l e p b d)
     = merged l (Contact.lastname c)
  /\ Contact.email (assign_fields c n l e p b d)
     = (if supplied e then option_map lower e else Contact.email c)
  /\ Contact.phone (assign_fields c n l e p b d) = merged p (Contact.phone c)
  /\ Contact.description (assign_fields c n l e p b d)
     = merged d (Contact.description c)
  /\ Contact.born_date (assign_fields c n l e p b d)
     = match b with Some v => v | None => Contact.born_date c end.
Proof.
  unfold assign_fields, merged. rewrite <- !truthy_supplied.
  destruct (truthy n), (truthy l), (truthy e), (truthy p), b, (truthy d);
    simpl; repeat split; reflexivity.
Qed.

Lemma assign_nothing (c : Contact.t) (n l e p d : option string) :
  supplied n = false -> supplied l = false -> supplied e = false ->
  supplied p = false -> supplied d = false ->
  assign_fields c n l e p None d = c.
Proof.
  unfold assign_fields. rewrite <- !truthy_supplied.
  intros -> -> -> -> ->. reflexivity.
Qed.

(** The claim read to the letter fails: an email with capitals is stored in
    lower case, and a [born_date] string the store does not read as a date
    makes the commit raise and nothing is overwritten. *)
Lemma overwrites_verbatim_fails :
  ~ overwrites_verbatim
  /\ (exists c' db',
        update_contact reading_store 1 alice sample_db
          None None (Some "NEW@Mail.COM") None None None
        = Ok (Some c', db')
        /\ Contact.email c' = Some "new@mail.com")
  /\ update_contact refusing_store 1 alice sample_db
       None None None None (Some "1990-06-04") None
     = Raise StatementError
  /\ update_contact reading_store 1 alice sample_db
       None None None None (Some "some day") None
     = Raise StatementError.
Proof.
  split; [|split; [|split; reflexivity]].
  - intros H.
    destruct (H reading_store 1 alice sample_db
                None None (Some "NEW@Mail.COM") None None None bill eq_refl)
      as (c' & db' & Hu & _ & _ & He & _).
    cbv in Hu. injection Hu as <- _. cbv in He. discriminate He.
  - eexists _, _. split; reflexivity.
Qed.

(** C3 (truthiness-merge update), amended.  Let [(contact_id, user)] name a
    contact [c].  When [update_contact] returns, it returns a contact with
    the key and owner of [c] that a following [get_contact] finds, in which
    name, lastname, phone and description hold the argument where it is
    given and not empty and the value [c] had otherwise, the email holds
    the argument in lower case where it is given and not empty and the
    value [c] had otherwise, and the born_date holds the date the store
    read from the argument where it is given and not empty and the date [c]
    had otherwise.  When it raises, it raises [StatementError]: the commit
    was refused and an argument was given and not empty.  With no argument
    given and not empty the call returns [c] and the table as it was; with
    the empty string as name the name is that of [c] whenever the call
    returns; a born_date the store cannot read makes the call raise; and on
    a store that takes every row the call returns whenever the store can
    read the born_date. *)
Theorem update_contact_merge (store : Store) (contact_id : Z) (user : User.t)
  (db : Session)
  (name lastname email phone born_date description : option string)
  (c : Contact.t) :
  get_contact contact_id user db = Some c ->
  match update_contact store contact_id user db
          name lastname email phone born_date description with
  | Ok (r, db') =>
      exists c',
        r = Some c'
        /\ get_contact contact_id user db' = Some c'
        /\ Contact.id c' = Contact.id c
        /\ Contact.user_id c' = Contact.user_id c
        /\ Contact.name c' = (if supplied name then name else Contact.name c)
        /\ Contact.lastname c'
           = (if supplied lastname then lastname else Contact.lastname c)
        /\ Contact.email c'
           = (if supplied email then option_map lower email
              else Contact.email c)
        /\ Contact.phone c'
           = (if supplied phone then phone else Contact.phone c)
        /\ Contact.description c'
           = (if supplied description then description
              else Contact.description c)
        /\ (if supplied born_date
            then exists s d,
                   born_date = Some s /\ to_datetime store s = Some d
                   /\ Contact.born_date c' = BornDate d
            else Contact.born_date c' = Contact.born_date c)
  | Raise err =>
      err = StatementError
      /\ (supplied name || supplied lastname || supplied email
          || supplied phone || supplied born_date || supplied description
          = true)
  end
  /\ (supplied name = false -> supplied lastname = false ->
      supplied email = false -> supplied phone = false ->
      supplied born_date = false -> supplied description = false ->
      update_contact store contact_id user db
        name lastname email phone born_date description
      = Ok (Some c, db))
  /\ (supplied born_date = true ->
      (forall s, born_date = Some s -> to_datetime store s = None) ->
      update_contact store contact_id user db
        name lastname email phone born_date description
      = Raise StatementError)
  /\ ((forall row, admits store row = true) ->
      (supplied born_date = true ->
       exists s d, born_date = Some s /\ to_datetime store s = Some d) ->
      exists c' db',
        update_contact store contact_id user db
          name lastname email phone born_date description
        = Ok (Some c', db')).
Proof.
  intros Hg.
  pose proof (update_contact_cases store contact_id user db
                name lastname email phone born_date description) as H.
  rewrite Hg in H. destruct H as (l1 & l2 & Hl & Hl1 & Hc & H).
  pose proof (read_born_cases store born_date) as Hb.
  assert (Hany : any_assigned name lastname email phone born_date description
                 = (supplied name || supplied lastname || supplied email
                    || supplied phone || supplied born_date
                    || supplied description))
    by (unfold any_assigned; now rewrite !truthy_supplied).
  destruct (read_born store born_date) as [born|err].
  - set (c' := assign_fields c name lastname email phone born description)
      in *.
    pose proof (assign_fields_columns c name lastname email phone born
                  description) as (Hn & Hln & He & Hp & Hd & Hbd).
    fold c' in Hn, Hln, He, Hp, Hd, Hbd. unfold merged in *.
    split; [|split; [|split]].
    + rewrite H.
      destruct (any_assigned _ _ _ _ _ _ && negb (admits store c')) eqn:Hr.
      * split; [reflexivity|]. apply andb_prop in Hr as [Hr _].
        now rewrite <- Hany.
      * exists c'. split; [reflexivity|]. split.
        { unfold get_contact, query_first. simpl.
          rewrite (find_app_skip _ _ _ Hl1). simpl.
          unfold c'. now rewrite assign_fields_by_id_owner, Hc. }
        unfold c' at 1 2. rewrite assign_fields_id, assign_fields_user_id.
        repeat (split; [first [reflexivity|assumption]|]).
        destruct born as [b|].
        -- destruct Hb as (Hs & s & d & Hbs & Hd' & ->). rewrite Hs.
           exists s, d. now rewrite Hbd.
        -- now rewrite Hb, Hbd.
    + intros Sn Sl Se Sp Sb Sd. rewrite H, Hany, Sn, Sl, Se, Sp, Sb, Sd.
      simpl. destruct born as [b|]; [destruct Hb; congruence|].
      unfold c'. rewrite (assign_nothing c _ _ _ _ _ Sn Sl Se Sp Sd).
      rewrite <- Hl. now rewrite session_eta.
    + intros Sb Hno. exfalso. destruct born as [b|]; [|congruence].
      destruct Hb as (_ & s & d & Hbs & Hd' & _).
      rewrite (Hno s Hbs) in Hd'. discriminate.
    + intros Hadm _. rewrite H, (Hadm c'), andb_false_r. now eexists _, _.
  - destruct H as [-> H]. destruct Hb as (_ & Sb & s & Hbs & Hno).
    rewrite H. split; [|split; [|split]].
    + split; [reflexivity|]. rewrite Sb. now rewrite !orb_true_r.
    + intros _ _ _ _ Sb'. congruence.
    + reflexivity.
    + intros _ Hread. destruct (Hread Sb) as (s' & d & Hbs' & Hd).
      congruence.
Qed.

Lemma update_contact_merge_witness :
  get_contact 1 alice sample_db = Some bill
  /\ exists c',
       fst (match update_contact reading_store 1 alice sample_db
                    None (Some "") (Some "NEW@Mail.COM") None
                    (Some "1991-07-05") (Some "Just strange friend") with
            | Ok r => r
            | Raise _ => (None, sample_db)
            end) = Some c'
       /\ Contact.lastname c' = Some "Fork"
       /\ Contact.email c' = Some "new@mail.com"
       /\ Contact.description c' = Some "Just strange friend"
       /\ Contact.born_date c' = BornDate (Date.mk 1991 7 5).
Proof.
  refine (conj eq_refl _).
  destruct (proj1 (update_contact_merge reading_store 1 alice sample_db
                     None (Some "") (Some "NEW@Mail.COM") None
                     (Some "1991-07-05") (Some "Just strange friend")
                     bill eq_refl))
    as (c' & Hr & _ & _ & _ & _ & Hl & He & _ & Hd & s & d & Hs & Hsd & Hb).
  exists c'. refine (conj Hr (conj Hl (conj He (conj Hd _)))).
  injection Hs as <-. injection Hsd as <-. exact Hb.
Defined.

Example update_description :
  update_contact reading_store 1 alice sample_db
    (Some "Bill") (Some "") None None (Some "1990-06-04")
    (Some "Just strange friend")
  = Ok (Some (Contact.mk 1 (Some "Bill") (Some "Fork")
                (Some "fork_bill@gmail.com") (Some "3800502128506")
                (BornDate (Date.mk 1990 6 4)) (Some "Just strange friend")
                (Some 1)),
        mkSession
          [Contact.mk 1 (Some "Bill") (Some "Fork")
             (Some "fork_bill@gmail.com") (Some "3800502128506")
             (BornDate (Date.mk 1990 6 4)) (Some "Just strange friend")
             (Some 1); brenda; deira] 4).
Proof. reflexivity. Qed.

Example update_nothing :
  update_contact refusing_store 1 alice sample_db
    None None None None None None
  = Ok (Some bill, sample_db).
Proof. reflexivity. Qed.

Example update_empty_name :
  update_contact refusing_store 1 alice sample_db
    (Some "") None None None None None
  = Ok (Some bill, sample_db).
Proof. reflexivity. Qed.

(** *** C9 *)

(** C9 (frame of update and delete).  When [(contact_id, user)] names no
    contact, [update_contact] and [delete_contact] return [None] and the
    table they return is the table they were given.  When it names the
    contact [c], the table is [l1 ++ c :: l2] for some [l1] and [l2], and
    the table after the update is [l1 ++ c' :: l2] with [c'] the merged
    contact, which has the key and the owner of [c], the table after the
    delete is [l1 ++ l2], and the key sequence is as it was: every row but
    [c] is kept as it is and where it is.  An update whose commit the store
    refuses raises [StatementError] and hands back no table: nothing is
    written. *)
Theorem update_delete_frame (store : Store) (contact_id : Z) (user : User.t)
  (db : Session)
  (name lastname email phone born_date description : option string) :
  match get_contact contact_id user db with
  | None =>
      update_contact store contact_id user db
        name lastname email phone born_date description = Ok (None, db)
      /\ delete_contact contact_id user db = (None, db)
  | Some c =>
      exists l1 l2,
        rows db = l1 ++ c :: l2
        /\ match update_contact store contact_id user db
                   name lastname email phone born_date description with
           | Ok r =>
               exists born,
                 read_born store born_date = Ok born
                 /\ r = (Some (assign_fields c
                                 name lastname email phone born description),
                         mkSession
                           (l1 ++ assign_fields c
                                    name lastname email phone born
                                    description
                               :: l2)
                           (next_id db))
                 /\ Contact.id (assign_fields c
                                  name lastname email phone born description)
                    = Contact.id c
                 /\ Contact.user_id
                      (assign_fields c
                         name lastname email phone born description)
                    = Contact.user_id c
           | Raise err => err = StatementError
           end
        /\ delete_contact contact_id user db
           = (Some c, mkSession (l1 ++ l2) (next_id db))
  end.
Proof.
  pose proof (update_contact_cases store contact_id user db
                name lastname email phone born_date description) as H.
  destruct (get_contact contact_id user db) as [c|] eqn:Hg.
  - destruct H as (l1 & l2 & Hl & Hl1 & Hc & H).
    exists l1, l2. split; [exact Hl|]. split.
    + destruct (read_born store born_date) as [born|err].
      * rewrite H. destruct (any_assigned _ _ _ _ _ _ && negb _);
          [reflexivity|].
        exists born. split; [reflexivity|]. split; [reflexivity|].
        now rewrite assign_fields_id, assign_fields_user_id.
      * destruct H as [_ ->]. reflexivity.
    + unfold get_contact, query_first in Hg.
      unfold delete_contact, query_first. rewrite Hg, Hl.
      now rewrite (remove_first_split _ _ _ _ Hl1 Hc).
  - split; [exact H|]. unfold get_contact in Hg.
    unfold delete_contact. now rewrite Hg.
Qed.

(** *** C7 *)

Lemma key_gone (l1 l2 : list Contact.t) (c x : Contact.t) :
  NoDup (map Contact.id (l1 ++ c :: l2)) -> In x (l1 ++ l2) ->
  Contact.id x <> Contact.id c.
Proof.
  rewrite map_app. simpl. intros Hnd Hx Hid.
  apply NoDup_remove_2 in Hnd. apply Hnd.
  rewrite <- map_app, <- Hid. now apply in_map.
Qed.

Lemma delete_contact_split (contact_id : Z) (user : User.t) (db : Session)
  (c : Contact.t) :
  get_contact contact_id user db = Some c ->
  exists l1 l2,
    rows db = l1 ++ c :: l2
    /\ delete_contact contact_id user db
       = (Some c, mkSession (l1 ++ l2) (next_id db)).
Proof.
  unfold get_contact, delete_contact, query_first. intros Hf. rewrite Hf.
  destruct (find_split _ _ _ Hf) as (l1 & l2 & Hl & Hc & Hl1).
  exists l1, l2. rewrite Hl at 2.
  now rewrite (remove_first_split _ _ _ _ Hl1 Hc).
Qed.

Lemma delete_contact_missing (contact_id : Z) (user : User.t) (db : Session) :
  get_contact contact_id user db = None ->
  delete_contact contact_id user db = (None, db).
Proof.
  unfold get_contact, delete_contact, query_first. now intros ->.
Qed.

(** C7 (delete).  Under the primary-key constraint: when [(contact_id,
    user)] names no contact, [delete_contact] returns [None] (and the table
    as it was); when it names the contact [c], [delete_contact] returns
    [c], [c] is no row of the table after the call, one row less is stored,
    and [get_contact] for the same key finds nothing there, for [user] and
    for every other caller. *)
Theorem delete_contact_spec (contact_id : Z) (user : User.t) (db : Session) :
  NoDup (ids db) ->
  match get_contact contact_id user db with
  | None => delete_contact contact_id user db = (None, db)
  | Some c =>
      fst (delete_contact contact_id user db) = Some c
      /\ ~ In c (rows (snd (delete_contact contact_id user db)))
      /\ S (List.length (rows (snd (delete_contact contact_id user db))))
         = List.length (rows db)
      /\ get_contact contact_id user
           (snd (delete_contact contact_id user db)) = None
      /\ forall user',
           get_contact contact_id user'
             (snd (delete_contact contact_id user db)) = None
  end.
Proof.
  intros Hnd.
  destruct (get_contact contact_id user db) as [c|] eqn:Hg;
    [|now apply delete_contact_missing].
  destruct (delete_contact_split _ _ _ _ Hg) as (l1 & l2 & Hl & Hd).
  rewrite Hd. simpl.
  apply get_contact_sound in Hg as (_ & Hid & _).
  unfold ids in Hnd. rewrite Hl in Hnd.
  assert (Hgone : forall user',
             get_contact contact_id user'
               (mkSession (l1 ++ l2) (next_id db)) = None).
  { intros user'. unfold get_contact, query_first. simpl.
    apply find_none_all. intros x Hx. unfold by_id_owner.
    destruct (Contact.id x =? contact_id) eqn:E; [|reflexivity].
    apply Z.eqb_eq in E. exfalso.
    apply (key_gone l1 l2 c x Hnd Hx). congruence. }
  repeat split; auto.
  - intros Hin. now apply (key_gone l1 l2 c c Hnd Hin).
  - rewrite Hl, !List.length_app. simpl. lia.
Qed.

Lemma delete_contact_spec_witness :
  NoDup (ids sample_db)
  /\ fst (delete_contact 2 alice sample_db) = Some brenda
  /\ get_contact 2 alice (snd (delete_contact 2 alice sample_db)) = None.
Proof.
  pose proof (delete_contact_spec 2 alice sample_db sample_db_keys) as H.
  simpl in H.
  exact (conj sample_db_keys
           (conj (proj1 H) (proj1 (proj2 (proj2 (proj2 H)))))).
Defined.

(** *** C6 *)

Lemma owned_by_owner (user : User.t) (c : Contact.t) :
  Contact.user_id c = Some (User.id user) -> owned_by user c = true.
Proof. unfold owned_by. intros ->. apply Z.eqb_refl. Qed.

Lemma fresh_key_skips (user : User.t) (k : Z) (l : list Contact.t) :
  Forall (fun c => Contact.id c < k) l ->
  forallb (fun x => negb (by_id_owner k user x)) l = true.
Proof.
  induction 1 as [|x l Hx _ IH]; simpl; [reflexivity|].
  rewrite IH, andb_true_r. unfold by_id_owner.
  replace (Contact.id x =? k) with false; [reflexivity|].
  symmetry. apply Z.eqb_neq. lia.
Qed.

(** [create_contact] keeps a table well formed. *)
Lemma create_contact_wf (contact : ContactModel.t) (user : User.t)
  (db : Session) :
  wf_db db -> wf_db (snd (create_contact contact user db)).
Proof.
  unfold wf_db, ids. intros [Hnd Hlt]. simpl. split.
  - rewrite map_app. simpl. apply NoDup_incl_NoDup with
      (l := next_id db :: map Contact.id (rows db)).
    + constructor; [|exact Hnd]. intros Hin.
      apply in_map_iff in Hin as (x & Hx & Hin).
      rewrite Forall_forall in Hlt. specialize (Hlt x Hin). lia.
    + rewrite List.length_app. simpl. lia.
    + intros z [<-|Hz]; apply in_or_app; simpl; auto.
  - apply Forall_app. split.
    + eapply Forall_impl; [|exact Hlt]. simpl. intros; lia.
    + constructor; [simpl; lia|constructor].
Qed.

(** The claim read to the letter fails on a payload whose email has
    capitals: the contact created and fetched holds the email in lower
    case. *)
Lemma round_trip_verbatim_fails :
  ~ round_trip_verbatim
  /\ get_contact 1 alice (snd (create_contact fork_payload alice empty_db))
     = Some (fst (create_contact fork_payload alice empty_db))
  /\ Contact.email (fst (create_contact fork_payload alice empty_db))
     = Some "fork_bill@gmail.com"
  /\ ContactModel.email fork_payload = "Fork_Bill@gmail.com".
Proof.
  split; [|repeat split].
  intros H.
  assert (Hwf : wf_db empty_db) by (split; constructor).
  destruct (H fork_payload alice empty_db Hwf) as (c & Hg & _ & _ & He & _).
  cbv in Hg. injection Hg as <-. cbv in He. discriminate He.
Qed.

(** C6 (create/get round trip), amended.  On a well-formed table,
    [get_contact] called for the same owner with the key of the contact
    [create_contact] returned finds that contact; its name, lastname,
    phone, born_date and description are those of the payload, its email is
    that of the payload in lower case (and so that of the payload when it
    has no capital letter), its owner is the caller, and its key is the
    next value of the key sequence, a key no row of the table had before.
    The table stays well formed. *)
Theorem create_then_get (contact : ContactModel.t) (user : User.t)
  (db : Session) :
  wf_db db ->
  let new_contact := fst (create_contact contact user db) in
  let db' := snd (create_contact contact user db) in
  get_contact (Contact.id new_contact) user db' = Some new_contact
  /\ Contact.name new_contact = Some (ContactModel.name contact)
  /\ Contact.lastname new_contact = Some (ContactModel.lastname contact)
  /\ Contact.email new_contact = Some (lower (ContactModel.email contact))
  /\ (lower (ContactModel.email contact) = ContactModel.email contact ->
      Contact.email new_contact = Some (ContactModel.email contact))
  /\ Contact.phone new_contact = Some (ContactModel.phone contact)
  /\ Contact.born_date new_contact
     = BornDate (ContactModel.born_date contact)
  /\ Contact.description new_contact = ContactModel.description contact
  /\ Contact.user_id new_contact = Some (User.id user)
  /\ Contact.id new_contact = next_id db
  /\ ~ In (Contact.id new_contact) (ids db)
  /\ wf_db db'.
Proof.
  intros Hwf. pose proof Hwf as [Hnd Hlt]. cbn zeta.
  split.
  { unfold get_contact, query_first. simpl.
    rewrite (find_app_skip _ _ _ (fresh_key_skips user _ _ Hlt)). simpl.
    unfold by_id_owner. simpl. rewrite Z.eqb_refl.
    now rewrite (owned_by_owner user) by reflexivity. }
  do 3 (split; [reflexivity|]).
  split; [simpl; now intros ->|].
  do 5 (split; [reflexivity|]).
  split; [|exact (create_contact_wf contact user db Hwf)].
  simpl. unfold ids. intros Hin.
  apply in_map_iff in Hin as (x & Hx & Hin).
  rewrite Forall_forall in Hlt. specialize (Hlt x Hin). lia.
Qed.

Lemma sample_db_wf : wf_db sample_db.
Proof.
  split; [exact sample_db_keys|].
  repeat constructor.
Defined.

Lemma create_then_get_witness :
  wf_db sample_db
  /\ get_contact 4 bob (snd (create_contact fork_payload bob sample_db))
     = Some (fst (create_contact fork_payload bob sample_db))
  /\ Contact.email (fst (create_contact fork_payload bob sample_db))
     = Some "fork_bill@gmail.com".
Proof.
  exact (conj sample_db_wf
           (conj
              (proj1 (create_then_get fork_payload bob sample_db
                        sample_db_wf))
              (proj1 (proj2 (proj2 (proj2
                 (create_then_get fork_payload bob sample_db
                    sample_db_wf))))))).
Defined.

Example create_bill :
  fst (create_contact bill_payload alice empty_db) = bill.
Proof. reflexivity. Qed.

(** *** Search *)

Lemma supplied_some (v : option string) :
  supplied v = true -> exists s, v = Some s.
Proof. destruct v as [s|]; [now exists s|discriminate]. Qed.

Lemma col_eq_iff (col : option string) (s : string) :
  col_eq col (Some s) = true <-> col = Some s.
Proof.
  destruct col as [a|]; simpl; [|split; discriminate].
  rewrite String.eqb_eq. split; congruence.
Qed.

Lemma matches_iff (sel : Contact.t -> option string) (s : string)
  (user : User.t) (c : Contact.t) :
  col_eq (sel c) (Some s) && owned_by user c = true
  <-> matches sel (Some s) user c.
Proof.
  unfold matches. rewrite andb_true_iff, col_eq_iff. reflexivity.
Qed.

(** A scan for the first owned row whose column equals a value returns the
    first match in store order. *)
Lemma scan_first_match (sel : Contact.t -> option string) (s : string)
  (user : User.t) (db : Session) :
  first_match sel (Some s) user db
    (query_first (fun c => col_eq (sel c) (Some s) && owned_by user c) db).
Proof.
  unfold first_match, query_first.
  destruct (find _ (rows db)) as [c|] eqn:Hf.
  - destruct (find_split _ _ _ Hf) as (l1 & l2 & Hl & Hc & Hl1).
    exists l1, l2. split; [exact Hl|]. split.
    + now apply (matches_iff sel s user c).
    + intros x Hx Hm. apply (matches_iff sel s user x) in Hm.
      rewrite forallb_forall in Hl1. specialize (Hl1 x Hx).
      simpl in Hl1. rewrite Hm in Hl1. discriminate.
  - intros x Hx Hm. apply (matches_iff sel s user x) in Hm.
    pose proof (find_none _ _ Hf x Hx) as Hn. simpl in Hn. congruence.
Qed.

Lemma first_match_none_iff (sel : Contact.t -> option string)
  (v : option string) (user : User.t) (db : Session)
  (r : option Contact.t) :
  first_match sel v user db r ->
  (r = None <-> forall x, In x (rows db) -> ~ matches sel v user x).
Proof.
  destruct r as [c|]; simpl.
  - intros (l1 & l2 & Hl & Hc & _). split; [discriminate|].
    intros H. exfalso. apply (H c); [|exact Hc].
    rewrite Hl. apply in_or_app. right. now left.
  - intros H. split; auto.
Qed.

(** What [search_data] does, by the first argument that is given and not
    empty. *)
Lemma search_data_cases (store : Store) (user : User.t) (db : Session)
  (name lastname email : option string) :
  match selected store name lastname email with
  | Some (sel, v) =>
      first_match sel v user db
        (search_data store user db name lastname email)
  | None => search_data store user db name lastname email = None
  end.
Proof.
  unfold selected, search_data. rewrite !truthy_supplied.
  destruct (supplied name) eqn:Hn.
  { destruct (supplied_some _ Hn) as [s ->]. apply scan_first_match. }
  destruct (supplied lastname) eqn:Hl.
  { destruct (supplied_some _ Hl) as [s ->]. apply scan_first_match. }
  destruct (supplied email) eqn:He; [|reflexivity].
  destruct (supplied_some _ He) as [s ->]. apply scan_first_match.
Qed.

(** *** C4 *)

(** The claim read to the letter fails, whether "supplied" is read as
    given or as given and not empty.  A name given as the empty string
    selects no criterion on the name: the search goes on to the lastname
    and returns Brenda Gerard, who is not named by the empty string.  An
    email is not matched exactly: a search for "BREGER@gmail.com" returns
    Brenda, whose email is "breger@gmail.com". *)
Lemma search_exact_fails :
  ~ search_exact given
  /\ ~ search_exact supplied
  /\ search_data reading_store alice sample_db (Some "") (Some "Gerard") None
     = Some brenda
  /\ Contact.name brenda = Some "Brenda"
  /\ search_data reading_store alice sample_db
       None None (Some "BREGER@gmail.com")
     = Some brenda
  /\ Contact.email brenda = Some "breger@gmail.com".
Proof.
  split; [|split; [|repeat split]].
  - intros H.
    pose proof (H reading_store alice sample_db
                  (Some "") (Some "Gerard") None) as H1.
    change (search_data reading_store alice sample_db
              (Some "") (Some "Gerard") None) with (Some brenda) in H1.
    cbn [exact_criterion given first_match] in H1.
    destruct H1 as (l1 & l2 & _ & [Hm _] & _). discriminate Hm.
  - intros H.
    pose proof (H reading_store alice sample_db
                  None None (Some "BREGER@gmail.com")) as H1.
    change (search_data reading_store alice sample_db
              None None (Some "BREGER@gmail.com")) with (Some brenda) in H1.
    cbn in H1.
    destruct H1 as (l1 & l2 & _ & [Hm _] & _). discriminate Hm.
Qed.

(** C4 (search priority), amended.  A criterion counts as supplied when its
    argument is given and is not the empty string.  If name is supplied,
    [search_data] returns the first row in store order that is the caller's
    and whose name equals it, or nothing when there is none, whatever
    lastname and email are; else if lastname is supplied it does so on the
    lastname alone, whatever email is; else if email is supplied it does so
    on the email alone, the column being compared with the searched email
    put in lower case by the store; else it returns nothing.  On the sample
    table a search for name "Bill" with lastname "X" and email "y@z.com"
    returns Bill Fork. *)
Theorem search_priority (store : Store) (user : User.t) (db : Session)
  (name lastname email : option string) :
  (if supplied name then
     first_match Contact.name name user db
       (search_data store user db name lastname email)
     /\ forall lastname' email',
          search_data store user db name lastname' email'
          = search_data store user db name lastname email
   else if supplied lastname then
     first_match Contact.lastname lastname user db
       (search_data store user db name lastname email)
     /\ forall email',
          search_data store user db name lastname email'
          = search_data store user db name lastname email
   else if supplied email then
     first_match Contact.email (option_map (sql_lower store) email) user db
       (search_data store user db name lastname email)
   else search_data store user db name lastname email = None)
  /\ search_data reading_store alice sample_db
       (Some "Bill") (Some "X") (Some "y@z.com")
     = Some bill.
Proof.
  split; [|reflexivity].
  pose proof (search_data_cases store user db name lastname email) as H.
  unfold selected in H.
  destruct (supplied name) eqn:Hn.
  { split; [exact H|]. intros lastname' email'.
    unfold search_data. now rewrite truthy_supplied, Hn. }
  destruct (supplied lastname) eqn:Hl.
  { split; [exact H|]. intros email'.
    unfold search_data. now rewrite !truthy_supplied, Hn, Hl. }
  destruct (supplied email); exact H.
Qed.

Example search_empty_name_falls_through :
  search_data reading_store alice sample_db (Some "") (Some "Gerard") None
  = Some brenda.
Proof. reflexivity. Qed.

Example search_name_no_fallback :
  search_data reading_store alice sample_db (Some "Nobody") (Some "Gerard")
    None
  = None.
Proof. reflexivity. Qed.

Example search_foreign_name :
  search_data reading_store alice sample_db (Some "Deira") None None = None.
Proof. reflexivity. Qed.

Example search_email_capitals :
  search_data reading_store alice sample_db
    None None (Some "BREGER@gmail.com")
  = Some brenda.
Proof. reflexivity. Qed.

(** *** C8 *)

(** The claim read to the letter fails, whether "supplied" is read as
    given or as given and not empty.  No row of the sample table holds the
    email "BREGER@gmail.com", yet the search for it returns Brenda; no row
    is named by the empty string, yet the search for that name with
    lastname "Gerard" returns Brenda. *)
Lemma not_found_exact_fails :
  ~ not_found_exact given
  /\ ~ not_found_exact supplied
  /\ (forall x, In x (rows sample_db) ->
        ~ matches Contact.email (Some "BREGER@gmail.com") alice x)
  /\ search_data reading_store alice sample_db
       None None (Some "BREGER@gmail.com")
     <> None
  /\ (forall x, In x (rows sample_db) ->
        ~ matches Contact.name (Some "") alice x)
  /\ search_data reading_store alice sample_db (Some "") (Some "Gerard") None
     <> None.
Proof.
  assert (He : forall x, In x (rows sample_db) ->
                 ~ matches Contact.email (Some "BREGER@gmail.com") alice x).
  { intros x [<-|[<-|[<-|[]]]] [Hm _]; discriminate Hm. }
  assert (Hn : forall x, In x (rows sample_db) ->
                 ~ matches Contact.name (Some "") alice x).
  { intros x [<-|[<-|[<-|[]]]] [Hm _]; discriminate Hm. }
  split; [|split; [|split; [exact He|split; [|split; [exact Hn|]]]]].
  - intros H.
    pose proof (proj2 (H reading_store alice sample_db
                         (Some "") (Some "Gerard") None) Hn) as H1.
    discriminate H1.
  - intros H.
    pose proof (proj2 (H reading_store alice sample_db
                         None None (Some "BREGER@gmail.com")) He) as H1.
    discriminate H1.
  - discriminate.
  - discriminate.
Qed.

(** C8 (search NotFound), amended.  A criterion counts as supplied when its
    argument is given and is not the empty string; the selected criterion
    is the first supplied among name, lastname and email, and a row matches
    it when the row is the caller's and its column equals the argument, for
    the email the argument put in lower case by the store.  [search_data]
    returns [None] exactly when none of name, lastname and email is
    supplied, or when no row matches the selected criterion. *)
Theorem search_not_found (store : Store) (user : User.t) (db : Session)
  (name lastname email : option string) :
  search_data store user db name lastname email = None
  <-> (supplied name = false /\ supplied lastname = false
       /\ supplied email = false)
      \/ (exists sel v,
            selected store name lastname email = Some (sel, v)
            /\ forall x, In x (rows db) -> ~ matches sel v user x).
Proof.
  pose proof (search_data_cases store user db name lastname email) as H.
  destruct (selected store name lastname email) as [[sel v]|] eqn:Hs.
  - rewrite (first_match_none_iff sel v user db _ H). split.
    + intros Hx. right. now exists sel, v.
    + intros [(H1 & H2 & H3)|(sel' & v' & Heq & Hx)].
      * unfold selected in Hs. rewrite H1, H2, H3 in Hs. discriminate Hs.
      * injection Heq as <- <-. exact Hx.
  - split; [|intros _; exact H]. intros _. left.
    unfold selected in Hs.
    destruct (supplied name); [discriminate|].
    destruct (supplied lastname); [discriminate|].
    destruct (supplied email); [discriminate|]. repeat split.
Qed.

Example search_nothing_supplied :
  search_data reading_store alice sample_db None (Some "") None = None.
Proof. reflexivity. Qed.

(** *** The birthday window *)

Lemma reanchors_bday (today week : Date.date) (c : Contact.t) :
  reanchors today c = true ->
  exists d,
    Contact.born_date c = BornDate d
    /\ (md <- month_day (Contact.born_date c) ;;
        Date.datetime (Date.year today) (fst md) (snd md))
       = Ok (Date.mk (Date.year today) (Date.month d) (Date.day d)).
Proof.
  unfold reanchors. destruct (Contact.born_date c) as [|d];
    try discriminate.
  intros H. exists d. split; [reflexivity|]. simpl.
  unfold Date.datetime. now rewrite H.
Qed.

(** With every birthday a date of the year, the loop appends the rows of
    the window to what it was given, in order. *)
Lemma birthday_loop_ok (today week : Date.date) (users : list Contact.t) :
  forallb (reanchors today) users = true ->
  forall happy_users,
    birthday_loop today week users happy_users
    = Ok (happy_users ++ filter (in_window today week) users).
Proof.
  induction users as [|c users IH]; simpl; intros H happy_users.
  - now rewrite app_nil_r.
  - apply andb_prop in H as [Hc H].
    destruct (reanchors_bday today week c Hc) as (d & Hd & _).
    unfold reanchors in Hc. unfold in_window. rewrite Hd in *. simpl.
    unfold Date.datetime. rewrite Hc. simpl. rewrite (IH H).
    destruct (Date.leb today _ && Date.leb _ week); simpl;
      [rewrite <- app_assoc|]; reflexivity.
Qed.

(** One birthday that is no date of the year makes the loop raise. *)
Lemma birthday_loop_fault (today week : Date.date) (users : list Contact.t) :
  forallb (reanchors today) users = false ->
  forall happy_users,
    exists e, birthday_loop today week users happy_users = Raise e.
Proof.
  induction users as [|c users IH]; simpl; [discriminate|].
  intros H happy_users. destruct (reanchors today c) eqn:Hc.
  - destruct (reanchors_bday today week c Hc) as (d & Hd & _).
    unfold reanchors in Hc. rewrite Hd in *. simpl.
    unfold Date.datetime. rewrite Hc. simpl. now apply IH.
  - unfold reanchors in Hc.
    destruct (Contact.born_date c) as [|d]; simpl;
      try (now exists AttributeError).
    unfold Date.datetime. rewrite Hc. now exists ValueError.
Qed.

(** What [birthday_to_week] returns when the look-ahead is a date and every
    birthday of the caller's is a date of the year. *)
Lemma birthday_to_week_ok (today week : Date.date) (user : User.t)
  (db : Session) :
  Date.add_days today 6 = Ok week ->
  forallb (reanchors today) (get_contacts user db) = true ->
  birthday_to_week today user db
  = Ok (match get_contacts user db with
        | [] => None
        | _ :: _ =>
            Some (filter (in_window today week) (get_contacts user db))
        end).
Proof.
  unfold birthday_to_week, get_contacts. intros Hw Hall.
  destruct (query_all (owned_by user) db) as [|c l] eqn:Hq; [reflexivity|].
  rewrite Hw. cbn [bind]. now rewrite (birthday_loop_ok today week _ Hall).
Qed.

Lemma birthday_to_week_none (today : Date.date) (user : User.t)
  (db : Session) :
  get_contacts user db = [] -> birthday_to_week today user db = Ok None.
Proof. unfold birthday_to_week, get_contacts. now intros ->. Qed.

Example birthday_june_2024 :
  birthday_to_week (Date.mk 2024 6 1) alice sample_db = Ok (Some [bill]).
Proof. reflexivity. Qed.

Example birthday_year_end :
  birthday_to_week (Date.mk 2024 12 29) bob sample_db = Ok (Some []).
Proof. reflexivity. Qed.

(** *** C2 *)

(** C2 (birthday-window membership), at an input where the code departs from
    it.  Today is 2023-06-01; the caller owns Bill Fork, born 1990-06-03,
    and a contact born 2000-02-29.  Bill's birthday of the year, 2023-06-03,
    lies in [2023-06-01, 2023-06-07], so the claim has [birthday_to_week]
    return the list holding Bill; the call raises [ValueError] on the leap
    day instead.  With today 2024-06-01 the same table yields Bill, and the
    sample table yields the contact born on 06-03 and not the one born on
    06-10. *)
Theorem birthday_window_leap_day :
  get_contacts alice leap_db = [bill; leapling]
  /\ Date.add_days (Date.mk 2023 6 1) 6 = Ok (Date.mk 2023 6 7)
  /\ filter (in_window (Date.mk 2023 6 1) (Date.mk 2023 6 7))
       (get_contacts alice leap_db) = [bill]
  /\ birthday_to_week (Date.mk 2023 6 1) alice leap_db = Raise ValueError
  /\ birthday_to_week (Date.mk 2024 6 1) alice leap_db = Ok (Some [bill])
  /\ birthday_to_week (Date.mk 2024 6 1) alice sample_db = Ok (Some [bill])
  /\ In brenda (get_contacts alice sample_db).
Proof. repeat split; simpl; auto. Qed.

(** *** C5 *)

(** C5 (no contacts against an empty window), at an input where the code
    departs from it.  A caller with no contact gets [None], whatever the
    day.  Today is 2023-06-01 and the caller owns one contact, born
    2000-02-29, whose birthday is not in [2023-06-01, 2023-06-07]: the claim
    has [birthday_to_week] return the empty list, and the call raises
    [ValueError].  On the sample table, where the one contact of the caller
    was born on 01-12, the call returns the empty list. *)
Theorem birthday_absent_or_empty :
  (forall today user db,
      get_contacts user db = [] -> birthday_to_week today user db = Ok None)
  /\ get_contacts alice leap_only_db = [leapling]
  /\ Date.add_days (Date.mk 2023 6 1) 6 = Ok (Date.mk 2023 6 7)
  /\ filter (in_window (Date.mk 2023 6 1) (Date.mk 2023 6 7))
       (get_contacts alice leap_only_db) = []
  /\ birthday_to_week (Date.mk 2023 6 1) alice leap_only_db
     = Raise ValueError
  /\ birthday_to_week (Date.mk 2023 6 1) bob sample_db = Ok (Some []).
Proof.
  split; [exact birthday_to_week_none|].
  repeat split.
Qed.

Lemma filter_none (p : Contact.t -> bool) (l : list Contact.t) :
  forallb (fun c => negb (p c)) l = true -> filter p l = [].
Proof.
  induction l as [|x l IH]; simpl; [reflexivity|].
  intros H. apply andb_prop in H as [Hx H].
  apply negb_true_iff in Hx. rewrite Hx. now apply IH.
Qed.

(** Where every birthday of the caller's is a date of the year and none is
    in the window, the answer is the empty list, and not [None]. *)
Lemma birthday_to_week_empty_window (today week : Date.date) (user : User.t)
  (db : Session) :
  Date.add_days today 6 = Ok week ->
  get_contacts user db <> [] ->
  forallb (reanchors today) (get_contacts user db) = true ->
  forallb (fun c => negb (in_window today week c)) (get_contacts user db)
  = true ->
  birthday_to_week today user db = Ok (Some []).
Proof.
  intros Hw Hne Hall Hout.
  rewrite (birthday_to_week_ok today week user db Hw Hall).
  rewrite (filter_none _ _ Hout).
  destruct (get_contacts user db); [congruence|reflexivity].
Qed.

(** *** C10 *)

(** The claim fails for a caller with no contact, who gets [None] and no
    list, and in the last six days of the year 9999, where today + 6 days is
    no date and the call raises [OverflowError]. *)
Lemma always_a_list_fails :
  ~ always_a_list
  /\ forallb (reanchors (Date.mk 2024 6 1)) (get_contacts alice empty_db)
     = true
  /\ birthday_to_week (Date.mk 2024 6 1) alice empty_db = Ok None
  /\ forallb (reanchors (Date.mk 9999 12 28)) (get_contacts alice sample_db)
     = true
  /\ birthday_to_week (Date.mk 9999 12 28) alice sample_db
     = Raise OverflowError.
Proof.
  split; [|repeat split].
  intros H.
  destruct (H (Date.mk 2024 6 1) alice empty_db eq_refl) as [l Hl].
  cbv in Hl. discriminate Hl.
Qed.

(** C10 (safety of the re-anchoring), amended.  When today + 6 days is a
    date and every contact of the caller has a [born_date] whose month and
    day form a date of the current year, building the birthday of each of
    these contacts raises nothing, and [birthday_to_week] returns: [None]
    for a caller with no contact, and otherwise the list of the caller's
    contacts whose birthday lies in the window. *)
Theorem birthday_to_week_safe (today week : Date.date) (user : User.t)
  (db : Session) :
  Date.add_days today 6 = Ok week ->
  forallb (reanchors today) (get_contacts user db) = true ->
  (forall c, In c (get_contacts user db) ->
     exists bday,
       (md <- month_day (Contact.born_date c) ;;
        Date.datetime (Date.year today) (fst md) (snd md)) = Ok bday)
  /\ (get_contacts user db = [] ->
      birthday_to_week today user db = Ok None)
  /\ (get_contacts user db <> [] ->
      birthday_to_week today user db
      = Ok (Some (filter (in_window today week) (get_contacts user db)))).
Proof.
  intros Hw Hall. split; [|split].
  - intros c Hc. rewrite forallb_forall in Hall.
    destruct (reanchors_bday today week c (Hall c Hc)) as (d & _ & Hb).
    eexists. exact Hb.
  - apply birthday_to_week_none.
  - intros Hne. rewrite (birthday_to_week_ok today week user db Hw Hall).
    destruct (get_contacts user db); [congruence|reflexivity].
Qed.

Lemma birthday_to_week_safe_witness :
  Date.add_days (Date.mk 2024 6 1) 6 = Ok (Date.mk 2024 6 7)
  /\ forallb (reanchors (Date.mk 2024 6 1)) (get_contacts alice sample_db)
     = true
  /\ birthday_to_week (Date.mk 2024 6 1) alice sample_db = Ok (Some [bill]).
Proof.
  refine (conj eq_refl (conj eq_refl _)).
  refine (proj2 (proj2 (birthday_to_week_safe (Date.mk 2024 6 1)
                          (Date.mk 2024 6 7) alice sample_db
                          eq_refl eq_refl)) _).
  discriminate.
Defined.

(** ** The table stays well formed *)

(** The table a committed update leaves: the table it was given when no
    contact is found, else that table with the one found row replaced by
    the row the assignments made of it. *)
Lemma update_contact_ok (store : Store) (contact_id : Z) (user : User.t)
  (db : Session) (n l e p b d : option string)
  (r : option Contact.t * Session) :
  update_contact store contact_id user db n l e p b d = Ok r ->
  r = (None, db)
  \/ exists l1 l2 c born,
       rows db = l1 ++ c :: l2
       /\ read_born store b = Ok born
       /\ r = (Some (assign_fields c n l e p born d),
               mkSession (l1 ++ assign_fields c n l e p born d :: l2)
                 (next_id db)).
Proof.
  intros Hu.
  pose proof (update_contact_cases store contact_id user db n l e p b d) as H.
  destruct (get_contact contact_id user db) as [c|].
  - destruct H as (l1 & l2 & Hl & _ & _ & H). right.
    destruct (read_born store b) as [born|err].
    + exists l1, l2, c, born. repeat split; [exact Hl|].
      rewrite H in Hu.
      destruct (any_assigned n l e p b d && negb (admits store _));
        congruence.
    + destruct H as [_ H]. congruence.
  - left. congruence.
Qed.

Lemma update_contact_wf (store : Store) (contact_id : Z) (user : User.t)
  (db : Session) (n l e p b d : option string)
  (r : option Contact.t * Session) :
  update_contact store contact_id user db n l e p b d = Ok r ->
  wf_db db -> wf_db (snd r).
Proof.
  intros Hu.
  destruct (update_contact_ok _ _ _ _ _ _ _ _ _ _ _ Hu)
    as [->|(l1 & l2 & c & born & Hl & _ & ->)]; [easy|].
  unfold wf_db, ids. simpl. rewrite Hl.
  rewrite !map_app. simpl. rewrite assign_fields_id.
  intros [Hnd Hlt]. split; [exact Hnd|].
  apply Forall_app in Hlt as [H1 H2]. apply Forall_app. split; [exact H1|].
  inversion H2; subst. constructor; [now rewrite assign_fields_id|easy].
Qed.

Lemma delete_contact_wf (contact_id : Z) (user : User.t) (db : Session) :
  wf_db db -> wf_db (snd (delete_contact contact_id user db)).
Proof.
  intros Hwf.
  destruct (get_contact contact_id user db) as [c|] eqn:Hg.
  - destruct (delete_contact_split _ _ _ _ Hg) as (l1 & l2 & Hl & ->).
    destruct Hwf as [Hnd Hlt]. unfold wf_db, ids in *. simpl.
    rewrite Hl in Hnd, Hlt. rewrite map_app in *. simpl in Hnd.
    split; [now apply NoDup_remove_1 in Hnd|].
    apply Forall_app in Hlt as [H1 H2]. apply Forall_app.
    split; [exact H1|]. now inversion H2.
  - now rewrite (delete_contact_missing _ _ _ Hg).
Qed.

(** ** The window where every birthday is a date of the year *)

(** X1 (birthday-window membership where no birthday is a leap day out of a
    leap year).  When today + 6 days is a date, the caller owns a contact,
    and every contact of the caller has a [born_date] whose month and day
    form a date of the current year, [birthday_to_week] returns a list: the
    caller's contacts, in store order, whose birthday of the current year
    lies in [today, today + 6 days]; a contact is in it exactly when it is a
    row of the table, the caller's, and in the window. *)
Theorem birthday_window_members (today week : Date.date) (user : User.t)
  (db : Session) :
  Date.add_days today 6 = Ok week ->
  get_contacts user db <> [] ->
  forallb (reanchors today) (get_contacts user db) = true ->
  birthday_to_week today user db
  = Ok (Some (filter (in_window today week) (get_contacts user db)))
  /\ forall c,
       In c (filter (in_window today week) (get_contacts user db))
       <-> In c (rows db) /\ owned_by user c = true
           /\ in_window today week c = true.
Proof.
  intros Hw Hne Hall. split.
  - rewrite (birthday_to_week_ok today week user db Hw Hall).
    destruct (get_contacts user db); [congruence|reflexivity].
  - intros c. unfold get_contacts, query_all. rewrite !filter_In. tauto.
Qed.

Lemma birthday_window_members_witness :
  Date.add_days (Date.mk 2024 6 1) 6 = Ok (Date.mk 2024 6 7)
  /\ get_contacts alice sample_db <> []
  /\ forallb (reanchors (Date.mk 2024 6 1)) (get_contacts alice sample_db)
     = true
  /\ birthday_to_week (Date.mk 2024 6 1) alice sample_db = Ok (Some [bill]).
Proof.
  assert (Hne : get_contacts alice sample_db <> []) by discriminate.
  exact (conj eq_refl (conj Hne (conj eq_refl
           (proj1 (birthday_window_members (Date.mk 2024 6 1)
                     (Date.mk 2024 6 7) alice sample_db
                     eq_refl Hne eq_refl))))).
Defined.

(** ** Tables reached by calls *)

Lemma truthy_not_none (v : option string) : truthy v = true -> v <> None.
Proof. destruct v; [discriminate|discriminate]. Qed.

Lemma assign_fields_filled (c : Contact.t) (n l e p : option string)
  (b : option born_value) (d : option string) :
  b <> Some BornNone ->
  row_filled c -> row_filled (assign_fields c n l e p b d).
Proof.
  unfold row_filled, assign_fields. intros Hb' (Hu & Hn & Hl & He & Hp & Hb).
  destruct (truthy n) eqn:En, (truthy l) eqn:El, (truthy e) eqn:Ee,
    (truthy p) eqn:Ep, b as [[|bd]|], (truthy d) eqn:Ed; simpl;
    repeat split;
    try assumption; try (now apply truthy_not_none);
    try congruence;
    destruct e; simpl; try discriminate.
Qed.

Lemma read_born_filled (store : Store) (b : option string)
  (born : option born_value) :
  read_born store b = Ok born -> born <> Some BornNone.
Proof.
  unfold read_born. destruct b as [[|a s]|]; try congruence.
  destruct (to_datetime store (String a s)); congruence.
Qed.

Lemma step_wf (store : Store) (db : Session) (c : call) :
  wf_db db -> wf_db (step store db c).
Proof.
  destruct c as [contact user|contact_id user n l e p b d|contact_id user];
    simpl.
  - apply create_contact_wf.
  - destruct (update_contact store contact_id user db n l e p b d)
      as [r|err] eqn:Hu; [|easy].
    now apply (update_contact_wf _ _ _ _ _ _ _ _ _ _ _ Hu).
  - apply delete_contact_wf.
Qed.

Lemma step_filled (store : Store) (db : Session) (c : call) :
  Forall row_filled (rows db) -> Forall row_filled (rows (step store db c)).
Proof.
  intros H. destruct c as [contact user|contact_id user n l e p b d
                          |contact_id user]; simpl.
  - apply Forall_app. split; [exact H|].
    constructor; [|constructor]. unfold row_filled. simpl.
    repeat split; discriminate.
  - destruct (update_contact store contact_id user db n l e p b d)
      as [r|err] eqn:Hu; [|exact H].
    destruct (update_contact_ok _ _ _ _ _ _ _ _ _ _ _ Hu)
      as [->|(l1 & l2 & c & born & Hl & Hb & ->)]; [exact H|].
    simpl. rewrite Hl in H.
    apply Forall_app in H as [H1 H2]. apply Forall_app. split; [exact H1|].
    inversion H2; subst. constructor; [|assumption].
    apply assign_fields_filled; [|assumption].
    exact (read_born_filled _ _ _ Hb).
  - destruct (get_contact contact_id user db) as [c|] eqn:Hg.
    + destruct (delete_contact_split _ _ _ _ Hg) as (l1 & l2 & Hl & ->).
      simpl. rewrite Hl in H.
      apply Forall_app in H as [H1 H2]. apply Forall_app. split; [exact H1|].
      now inversion H2.
    + now rewrite (delete_contact_missing _ _ _ Hg).
Qed.

(** X2 (tables reached by calls).  Whatever calls of [create_contact],
    [update_contact] and [delete_contact] are made on the empty table, in
    whatever order and for whatever callers, on whatever store, the table
    they leave is well formed (no two rows share a key, and every key in
    use is below the next key of the sequence), and every row of it has an
    owner, a name, a lastname, an email, a phone and a birth date: no call
    stores a NULL in one of these columns. *)
Theorem reachable_tables (store : Store) (calls : list call) :
  wf_db (run store calls empty_db)
  /\ Forall row_filled (rows (run store calls empty_db)).
Proof.
  unfold run.
  assert (H : wf_db empty_db /\ Forall row_filled (rows empty_db)).
  { split; [split; constructor|constructor]. }
  revert H. generalize empty_db.
  induction calls as [|c calls IH]; intros db [Hwf Hf]; simpl.
  - now split.
  - apply IH. split; [now apply step_wf|now apply step_filled].
Qed.

(** ** The list of a caller's contacts *)

(** X3 ([get_contacts] against [get_contact]).  Under the primary-key
    constraint, a contact is in the list [get_contacts] returns for a caller
    exactly when [get_contact] called for that caller with the contact's key
    returns that contact: the list holds what can be fetched one by one, and
    nothing else. *)
Theorem listed_iff_fetched (user : User.t) (db : Session) (c : Contact.t) :
  NoDup (ids db) ->
  (In c (get_contacts user db)
   <-> get_contact (Contact.id c) user db = Some c).
Proof.
  intros Hnd. unfold get_contacts, query_all. rewrite filter_In. split.
  - intros [Hin Ho]. unfold get_contact, query_first.
    destruct (find (by_id_owner (Contact.id c) user) (rows db)) as [x|] eqn:Hf.
    + pose proof (find_some _ _ Hf) as [Hx Hp].
      apply by_id_owner_id in Hp.
      now rewrite (id_names_one_row (rows db) x c Hnd Hx Hin Hp).
    + pose proof (find_none _ _ Hf c Hin) as Hn.
      unfold by_id_owner in Hn. now rewrite Z.eqb_refl, Ho in Hn.
  - intros Hg. apply get_contact_sound in Hg. tauto.
Qed.

Lemma listed_iff_fetched_witness :
  NoDup (ids sample_db)
  /\ (In brenda (get_contacts alice sample_db)
      <-> get_contact 2 alice sample_db = Some brenda).
Proof.
  exact (conj sample_db_keys
           (listed_iff_fetched alice sample_db brenda sample_db_keys)).
Defined.

Lemma owned_by_same_id (user user' : User.t) (c : Contact.t) :
  User.id user' = User.id user -> owned_by user' c = owned_by user c.
Proof. unfold owned_by. now intros ->. Qed.

(** X4 ([create_contact] against [get_contacts]).  After a create the list
    of the caller is the list it was with the new contact added at the end,
    and the list of every caller with another id is the list it was. *)
Theorem create_extends_list (contact : ContactModel.t) (user : User.t)
  (db : Session) :
  get_contacts user (snd (create_contact contact user db))
  = get_contacts user db ++ [fst (create_contact contact user db)]
  /\ forall user',
       User.id user' <> User.id user ->
       get_contacts user' (snd (create_contact contact user db))
       = get_contacts user' db.
Proof.
  unfold get_contacts, query_all. simpl. split.
  - rewrite filter_app. simpl.
    now rewrite (owned_by_owner user) by reflexivity.
  - intros user' Hne. rewrite filter_app. simpl.
    unfold owned_by at 2. simpl.
    replace (User.id user =? User.id user') with false;
      [now rewrite app_nil_r|].
    symmetry. apply Z.eqb_neq. congruence.
Qed.

(** X5 (what [update_contact] never changes).  Whatever its arguments, an
    update that returns leaves the table with the same rows by key and
    owner, each as many times as before, and the same next key of the
    sequence: it adds no row, drops none, and moves no contact to another
    caller, so every caller's list holds the same keys before and after.
    Nothing is said of the order of the rows, which is the store's.  An
    update that does not return raises [StatementError]. *)
Theorem update_keeps_keys (store : Store) (contact_id : Z) (user : User.t)
  (db : Session)
  (name lastname email phone born_date description : option string) :
  match update_contact store contact_id user db
          name lastname email phone born_date description with
  | Ok r =>
      Permutation
        (map (fun c => (Contact.id c, Contact.user_id c)) (rows (snd r)))
        (map (fun c => (Contact.id c, Contact.user_id c)) (rows db))
      /\ next_id (snd r) = next_id db
      /\ forall user',
           Permutation (map Contact.id (get_contacts user' (snd r)))
             (map Contact.id (get_contacts user' db))
  | Raise err => err = StatementError
  end.
Proof.
  destruct (update_contact store contact_id user db
              name lastname email phone born_date description)
    as [r|err] eqn:Hu.
  - destruct (update_contact_ok _ _ _ _ _ _ _ _ _ _ _ Hu)
      as [->|(l1 & l2 & c & born & Hl & _ & ->)]; [now repeat split|].
    unfold get_contacts, query_all. cbn [snd rows next_id]. rewrite Hl.
    rewrite !map_app. cbn [map].
    rewrite assign_fields_id, assign_fields_user_id.
    repeat split; [apply Permutation_refl|]. intros user'.
    rewrite !filter_app. cbn [filter]. rewrite assign_fields_owned.
    destruct (owned_by user' c); rewrite !map_app; cbn [map];
      [rewrite assign_fields_id|]; apply Permutation_refl.
  - pose proof (update_contact_cases store contact_id user db name lastname
                  email phone born_date description) as H.
    destruct (get_contact contact_id user db) as [c|]; [|congruence].
    destruct H as (l1 & l2 & _ & _ & _ & H).
    destruct (read_born store born_date) as [born|err'].
    + rewrite H in Hu.
      destruct (any_assigned _ _ _ _ _ _ && negb (admits store _));
        congruence.
    + destruct H as [_ H]. congruence.
Qed.

(** ** When the birthday computation raises, and what it cannot return *)

Ltac bools :=
  repeat match goal with
    | H : _ && _ = true |- _ => apply andb_prop in H; destruct H
    | H : (_ <=? _) = true |- _ => apply Z.leb_le in H
    | H : (_ <? _) = true |- _ => apply Z.ltb_lt in H
    | H : (_ =? _) = true |- _ => apply Z.eqb_eq in H
    end.

(** Between two years the days of a month differ for February alone. *)
Lemma reanchor_fails_iff (today d : Date.date) :
  Date.valid today = true -> Date.valid d = true ->
  Date.check_date_fields (Date.year today) (Date.month d) (Date.day d)
  = negb ((Date.month d =? 2) && (Date.day d =? 29)
          && negb (Date.is_leap (Date.year today))).
Proof.
  destruct today as [ty tm td], d as [y m dd].
  unfold Date.valid, Date.check_date_fields, Date.days_in_month,
    Date.MINYEAR, Date.MAXYEAR. simpl.
  intros Ht Hd. bools.
  assert (Hm : m = 1 \/ m = 2 \/ m = 3 \/ m = 4 \/ m = 5 \/ m = 6 \/ m = 7
               \/ m = 8 \/ m = 9 \/ m = 10 \/ m = 11 \/ m = 12) by lia.
  replace (1 <=? ty) with true by (symmetry; apply Z.leb_le; lia).
  replace (ty <=? 9999) with true by (symmetry; apply Z.leb_le; lia).
  replace (1 <=? m) with true by (symmetry; apply Z.leb_le; lia).
  replace (m <=? 12) with true by (symmetry; apply Z.leb_le; lia).
  replace (1 <=? dd) with true by (symmetry; apply Z.leb_le; lia).
  simpl.
  destruct Hm as [->|[->|[->|[->|[->|[->|[->|[->|[->|[->|[->| ->]]]]]]]]]]];
    simpl in *;
    try (apply Z.leb_le; assumption).
  destruct (Date.is_leap y), (Date.is_leap ty); simpl in *.
  - rewrite andb_false_r. simpl. now apply Z.leb_le.
  - destruct (dd =? 29) eqn:E; simpl.
    + apply Z.eqb_eq in E. apply Z.leb_gt. lia.
    + apply Z.eqb_neq in E. apply Z.leb_le. lia.
  - rewrite andb_false_r. simpl. apply Z.leb_le. lia.
  - replace (dd =? 29) with false by (symmetry; apply Z.eqb_neq; lia).
    simpl. now apply Z.leb_le.
Qed.

Lemma reanchors_leap_day (today : Date.date) (c : Contact.t) :
  Date.valid today = true -> born_is_date c = true ->
  reanchors today c = negb (leap_day_in_common_year today c).
Proof.
  unfold born_is_date, reanchors, leap_day_in_common_year.
  destruct (Contact.born_date c) as [|d]; try discriminate.
  intros Ht Hd. now apply reanchor_fails_iff.
Qed.

Lemma reanchors_all_leap_day (today : Date.date) (l : list Contact.t) :
  Date.valid today = true -> forallb born_is_date l = true ->
  forallb (reanchors today) l
  = negb (existsb (leap_day_in_common_year today) l).
Proof.
  intros Ht. induction l as [|c l IH]; simpl; [reflexivity|].
  intros H. apply andb_prop in H as [Hc H].
  rewrite (reanchors_leap_day today c Ht Hc), (IH H).
  now rewrite negb_orb.
Qed.

(** Among rows that hold dates the loop can raise [ValueError] alone. *)
Lemma birthday_loop_value_error (today week : Date.date)
  (users : list Contact.t) :
  forallb born_is_date users = true ->
  forallb (reanchors today) users = false ->
  forall happy_users,
    birthday_loop today week users happy_users = Raise ValueError.
Proof.
  induction users as [|c users IH]; simpl; [discriminate|].
  intros Hd Hr happy_users. apply andb_prop in Hd as [Hc Hd].
  unfold born_is_date in Hc. unfold reanchors in Hr.
  destruct (Contact.born_date c) as [|d]; try discriminate. simpl.
  unfold Date.datetime.
  destruct (Date.check_date_fields _ _ _); simpl; [|reflexivity].
  now apply IH.
Qed.

(** X6 (when [birthday_to_week] raises).  Let today be a date whose sixth
    day ahead is a date too, and let the caller own at least one contact,
    each with a date as [born_date].  If the year of today is no leap year
    and one of these contacts was born on February 29, the call raises
    [ValueError] and returns nothing, however many other birthdays lie in
    the window; in every other case it returns the contacts of the
    window. *)
Theorem birthday_raises_iff_leap_day (today week : Date.date)
  (user : User.t) (db : Session) :
  Date.valid today = true ->
  Date.add_days today 6 = Ok week ->
  get_contacts user db <> [] ->
  forallb born_is_date (get_contacts user db) = true ->
  birthday_to_week today user db
  = if existsb (leap_day_in_common_year today) (get_contacts user db)
    then Raise ValueError
    else Ok (Some (filter (in_window today week) (get_contacts user db))).
Proof.
  intros Ht Hw Hne Hd.
  pose proof (reanchors_all_leap_day today _ Ht Hd) as Hall.
  destruct (existsb _ _); simpl in Hall.
  - unfold birthday_to_week, get_contacts in *.
    destruct (query_all (owned_by user) db) as [|c l] eqn:Hq; [congruence|].
    rewrite Hw. cbn [bind].
    now rewrite (birthday_loop_value_error today week _ Hd Hall).
  - rewrite (birthday_to_week_ok today week user db Hw Hall).
    destruct (get_contacts user db); [congruence|reflexivity].
Qed.

Lemma birthday_raises_iff_leap_day_witness :
  Date.valid (Date.mk 2023 6 1) = true
  /\ Date.add_days (Date.mk 2023 6 1) 6 = Ok (Date.mk 2023 6 7)
  /\ get_contacts alice leap_db <> []
  /\ forallb born_is_date (get_contacts alice leap_db) = true
  /\ birthday_to_week (Date.mk 2023 6 1) alice leap_db = Raise ValueError.
Proof.
  assert (Hne : get_contacts alice leap_db <> []) by discriminate.
  exact (conj eq_refl (conj eq_refl (conj Hne (conj eq_refl
           (birthday_raises_iff_leap_day (Date.mk 2023 6 1)
              (Date.mk 2023 6 7) alice leap_db
              eq_refl eq_refl Hne eq_refl))))).
Defined.

(** What a returned list tells about the call that returned it. *)
Lemma birthday_to_week_inv (today : Date.date) (user : User.t)
  (db : Session) (happy_users : list Contact.t) :
  birthday_to_week today user db = Ok (Some happy_users) ->
  exists week,
    Date.add_days today 6 = Ok week
    /\ forallb (reanchors today) (get_contacts user db) = true
    /\ happy_users = filter (in_window today week) (get_contacts user db).
Proof.
  unfold birthday_to_week, get_contacts.
  destruct (query_all (owned_by user) db) as [|c l] eqn:Hq; [discriminate|].
  destruct (Date.add_days today 6) as [week|e]; [|discriminate].
  cbn [bind]. intros H. exists week. split; [reflexivity|].
  destruct (forallb (reanchors today) (c :: l)) eqn:Hall.
  - rewrite (birthday_loop_ok today week _ Hall) in H.
    cbn [bind] in H. split; [reflexivity|].
    rewrite app_nil_l in H. now injection H as <-.
  - destruct (birthday_loop_fault today week _ Hall []) as [e He].
    rewrite He in H. discriminate.
Qed.

Lemma in_window_not_before (today week : Date.date) (c : Contact.t) :
  in_window today week c = true -> not_before today c = true.
Proof.
  unfold in_window, not_before, Date.leb.
  destruct (Contact.born_date c) as [|d]; try discriminate. simpl.
  rewrite Z.ltb_irrefl, Z.eqb_refl. simpl.
  intros H. now apply andb_prop in H.
Qed.

Lemma in_window_year_end (today week : Date.date) (c : Contact.t) :
  Date.year today < Date.year week ->
  in_window today week c = not_before today c.
Proof.
  unfold in_window, not_before, Date.leb. intros Hy.
  destruct (Contact.born_date c) as [|d]; try reflexivity. simpl.
  rewrite Z.ltb_irrefl, Z.eqb_refl. simpl.
  replace (Date.year today <? Date.year week) with true
    by (symmetry; now apply Z.ltb_lt).
  simpl. now rewrite andb_true_r.
Qed.

(** X7 (birthdays before today's month and day).  Every contact
    [birthday_to_week] returns is one of the caller's whose month and day of
    birth are not before the month and day of today: the birthday is looked
    for in the year of today alone.  When the sixth day ahead falls in the
    next year, the returned list is that of all the caller's contacts born
    on today's month and day or later in the year, so a January birthday
    inside the seven days is not returned. *)
Theorem birthday_never_before_today (today : Date.date) (user : User.t)
  (db : Session) (happy_users : list Contact.t) :
  birthday_to_week today user db = Ok (Some happy_users) ->
  (forall c, In c happy_users ->
     In c (get_contacts user db) /\ not_before today c = true)
  /\ (forall week,
        Date.add_days today 6 = Ok week ->
        Date.year today < Date.year week ->
        happy_users = filter (not_before today) (get_contacts user db)).
Proof.
  intros H.
  destruct (birthday_to_week_inv today user db happy_users H)
    as (week & Hw & _ & ->).
  split.
  - intros c Hc. apply filter_In in Hc as [Hin Hc].
    split; [exact Hin|]. now apply (in_window_not_before today week).
  - intros week' Hw' Hy. assert (week' = week) by congruence. subst week'.
    apply filter_ext. intros c. now apply in_window_year_end.
Qed.

Lemma birthday_never_before_today_witness :
  birthday_to_week (Date.mk 2024 12 29) alice newyear_db
  = Ok (Some [december])
  /\ Date.add_days (Date.mk 2024 12 29) 6 = Ok (Date.mk 2025 1 4)
  /\ [december]
     = filter (not_before (Date.mk 2024 12 29))
         (get_contacts alice newyear_db).
Proof.
  refine (conj eq_refl (conj eq_refl _)).
  refine (proj2 (birthday_never_before_today (Date.mk 2024 12 29) alice
                   newyear_db [december] eq_refl)
            (Date.mk 2025 1 4) eq_refl _).
  simpl. lia.
Defined.

(** ** The path operations *)

Lemma get_contact_foreign (db : Session) (A B : User.t) (c : Contact.t) :
  NoDup (ids db) -> In c (rows db) -> owned_by A c = true -> A <> B ->
  get_contact (Contact.id c) B db = None.
Proof.
  intros Hnd Hin HA HAB. unfold get_contact, query_first.
  apply find_none_all. intros x Hx. unfold by_id_owner.
  destruct (Contact.id x =? Contact.id c) eqn:Hid; [|reflexivity].
  apply Z.eqb_eq in Hid.
  rewrite (id_names_one_row (rows db) x c Hnd Hx Hin Hid).
  now apply (owned_by_other A B).
Qed.

Lemma get_after_delete (contact_id : Z) (user user' : User.t)
  (db : Session) (c : Contact.t) :
  NoDup (ids db) -> get_contact contact_id user db = Some c ->
  get_contact contact_id user' (snd (delete_contact contact_id user db))
  = None.
Proof.
  intros Hnd Hg.
  destruct (delete_contact_split _ _ _ _ Hg) as (l1 & l2 & Hl & ->).
  apply get_contact_sound in Hg as (_ & Hid & _).
  unfold ids in Hnd. rewrite Hl in Hnd.
  unfold get_contact, query_first. simpl.
  apply find_none_all. intros x Hx. unfold by_id_owner.
  destruct (Contact.id x =? contact_id) eqn:E; [|reflexivity].
  apply Z.eqb_eq in E. exfalso.
  apply (key_gone l1 l2 c x Hnd Hx). congruence.
Qed.

Lemma update_contact_missing (store : Store) (contact_id : Z)
  (user : User.t) (db : Session) (n l e p b d : option string) :
  get_contact contact_id user db = None ->
  update_contact store contact_id user db n l e p b d = Ok (None, db).
Proof.
  unfold get_contact, update_contact, query_first. now intros ->.
Qed.

(** X8 (what can be read can be changed, unless the store refuses).  For
    one key and one caller the three path operations on a single contact
    agree on what is found: where [read_contact] raises its 404, the update
    and the delete raise theirs and hand back the table they were given;
    where [read_contact] returns a contact, the delete returns its message,
    and the update either returns a contact with that key and that owner,
    or lets the [StatementError] of a refused commit through and hands
    back the table it was given, and never raises the 404.  With no
    argument given and not empty the update returns the contact
    [read_contact] returns; with a born_date the store cannot read it lets
    the exception through.  [read_contact] and [delete_contact] let no
    exception through. *)
Theorem routes_agree_on_found (store : Store) (contact_id : Z)
  (db : Session) (current_user : User.t)
  (name lastname email phone born_date description : option string) :
  match routes.read_contact contact_id db current_user with
  | HTTPException status_code detail =>
      status_code = 404 /\ detail = "Not found"
      /\ routes.update_contact store contact_id db current_user
           name lastname email phone born_date description
         = (HTTPException 404 "NOT FOUND", db)
      /\ routes.delete_contact contact_id db current_user
         = (HTTPException 404 "Contact not found", db)
  | Returns contact =>
      Contact.id contact = contact_id
      /\ owned_by current_user contact = true
      /\ match routes.update_contact store contact_id db current_user
                 name lastname email phone born_date description with
         | (Returns target_contact, _) =>
             Contact.id target_contact = contact_id
             /\ owned_by current_user target_contact = true
         | (Uncaught err, db') => err = StatementError /\ db' = db
         | (HTTPException _ _, _) => False
         end
      /\ (supplied name = false -> supplied lastname = false ->
          supplied email = false -> supplied phone = false ->
          supplied born_date = false -> supplied description = false ->
          routes.update_contact store contact_id db current_user
            name lastname email phone born_date description
          = (Returns contact, db))
      /\ (forall s,
            born_date = Some s -> s <> "" -> to_datetime store s = None ->
            routes.update_contact store contact_id db current_user
              name lastname email phone born_date description
            = (Uncaught StatementError, db))
      /\ fst (routes.delete_contact contact_id db current_user)
         = Returns [("message", "Contact Deleted Succesfully")]
  | Uncaught _ => False
  end.
Proof.
  unfold routes.read_contact, routes.update_contact, routes.delete_contact.
  pose proof (update_contact_cases store contact_id current_user db
                name lastname email phone born_date description) as H.
  destruct (get_contact contact_id current_user db) as [c|] eqn:Hg.
  - pose proof (get_contact_sound _ _ _ _ Hg) as (_ & Hid & Ho).
    destruct H as (l1 & l2 & Hl & _ & _ & H).
    split; [exact Hid|]. split; [exact Ho|].
    split; [|split; [|split]].
    + destruct (read_born store born_date) as [born|err].
      * rewrite H.
        destruct (any_assigned _ _ _ _ _ _ && negb (admits store _));
          [now split|].
        now rewrite assign_fields_id, assign_fields_owned.
      * destruct H as [-> ->]. now split.
    + intros Sn Sl Se Sp Sb Sd.
      pose proof (read_born_cases store born_date) as Hb.
      destruct (read_born store born_date) as [[b|]|err].
      * destruct Hb; congruence.
      * rewrite H. unfold any_assigned. rewrite !truthy_supplied.
        rewrite Sn, Sl, Se, Sp, Sb, Sd. cbn [orb andb].
        rewrite (assign_nothing c _ _ _ _ _ Sn Sl Se Sp Sd).
        rewrite <- Hl. now rewrite session_eta.
      * destruct Hb as (_ & Hb & _). congruence.
    + intros s -> Hs Hno. unfold read_born in H.
      destruct s as [|a s]; [congruence|]. rewrite Hno in H.
      destruct H as [_ ->]. reflexivity.
    + unfold get_contact in Hg. unfold delete_contact. now rewrite Hg.
  - rewrite H. rewrite (delete_contact_missing _ _ _ Hg). now repeat split.
Qed.

(** X9 (a contact of somebody else through the path operations).  Under the
    primary-key constraint, reading, updating or deleting by its key a
    contact that belongs to another user raises the 404 of the path
    operation, the one an unused key raises, and the update and the delete
    hand back the table they were given. *)
Theorem routes_foreign_contact (store : Store) (db : Session)
  (A B : User.t) (c : Contact.t)
  (name lastname email phone born_date description : option string) :
  NoDup (ids db) -> In c (rows db) -> owned_by A c = true -> A <> B ->
  routes.read_contact (Contact.id c) db B = HTTPException 404 "Not found"
  /\ routes.update_contact store (Contact.id c) db B
       name lastname email phone born_date description
     = (HTTPException 404 "NOT FOUND", db)
  /\ routes.delete_contact (Contact.id c) db B
     = (HTTPException 404 "Contact not found", db)
  /\ forall unused,
       ~ In unused (ids db) ->
       routes.read_contact unused db B
       = routes.read_contact (Contact.id c) db B.
Proof.
  intros Hnd Hin HA HAB.
  pose proof (get_contact_foreign db A B c Hnd Hin HA HAB) as Hg.
  unfold routes.read_contact, routes.update_contact, routes.delete_contact.
  rewrite Hg, (update_contact_missing store _ _ _ _ _ _ _ _ _ Hg),
    (delete_contact_missing _ _ _ Hg).
  repeat split. intros unused Hun.
  destruct (get_contact unused B db) as [x|] eqn:Hx; [|reflexivity].
  apply get_contact_sound in Hx as (Hxin & Hxid & _).
  exfalso. apply Hun. unfold ids. rewrite <- Hxid. now apply in_map.
Qed.

Lemma routes_foreign_contact_witness :
  NoDup (ids sample_db) /\ In deira (rows sample_db)
  /\ owned_by bob deira = true /\ bob <> alice
  /\ routes.delete_contact 3 sample_db alice
     = (HTTPException 404 "Contact not found", sample_db).
Proof.
  assert (Hin : In deira (rows sample_db)) by (simpl; auto).
  assert (Hne : bob <> alice) by discriminate.
  exact (conj sample_db_keys (conj Hin (conj eq_refl (conj Hne
           (proj1 (proj2 (proj2
              (routes_foreign_contact reading_store sample_db bob alice
                 deira
                 None None None None None None
                 sample_db_keys Hin eq_refl Hne)))))))).
Defined.

(** X10 (deleting twice).  Under the primary-key constraint, when the delete
    path operation has returned its message for a key, the same request
    made again on the table it left raises the 404 and leaves that table
    as it is, and so does [read_contact] for that key, for any user. *)
Theorem routes_delete_twice (contact_id : Z) (db : Session)
  (current_user : User.t) (message : list (string * string)) :
  NoDup (ids db) ->
  fst (routes.delete_contact contact_id db current_user) = Returns message ->
  let db' := snd (routes.delete_contact contact_id db current_user) in
  routes.delete_contact contact_id db' current_user
  = (HTTPException 404 "Contact not found", db')
  /\ forall user,
       routes.read_contact contact_id db' user
       = HTTPException 404 "Not found".
Proof.
  intros Hnd Hret.
  destruct (get_contact contact_id current_user db) as [c|] eqn:Hg.
  - pose proof (fun u => get_after_delete contact_id current_user u db c
                           Hnd Hg) as Hgone.
    destruct (delete_contact_split _ _ _ _ Hg) as (l1 & l2 & Hl & Hd).
    unfold routes.delete_contact, routes.read_contact. cbn zeta.
    rewrite Hd in *. cbn [fst snd] in *. split.
    + now rewrite (delete_contact_missing _ _ _ (Hgone current_user)).
    + intros user. now rewrite (Hgone user).
  - unfold routes.delete_contact in Hret.
    rewrite (delete_contact_missing _ _ _ Hg) in Hret. discriminate Hret.
Qed.

Lemma routes_delete_twice_witness :
  NoDup (ids sample_db)
  /\ fst (routes.delete_contact 2 sample_db alice)
     = Returns [("message", "Contact Deleted Succesfully")]
  /\ routes.delete_contact 2 (snd (routes.delete_contact 2 sample_db alice))
       alice
     = (HTTPException 404 "Contact not found",
        snd (routes.delete_contact 2 sample_db alice)).
Proof.
  exact (conj sample_db_keys (conj eq_refl
           (proj1 (routes_delete_twice 2 sample_db alice _
                     sample_db_keys eq_refl)))).
Defined.

(** X11 (no contacts: a list from one path, a 404 from the other).  For
    every user and every day, [get_birthday_week] raises its 404 exactly
    when [get_all_contacts] returns the empty list; for a user with a
    contact it returns a list or lets an exception of the computation
    through, and never answers 404. *)
Theorem routes_birthdays_not_found (today : Date.date) (db : Session)
  (current_user : User.t) :
  (routes.get_birthday_week today db current_user
   = HTTPException 404 "Contacts not found"
   <-> routes.get_all_contacts db current_user = [])
  /\ (forall status_code detail,
        routes.get_birthday_week today db current_user
        = HTTPException status_code detail ->
        status_code = 404 /\ detail = "Contacts not found"
        /\ routes.get_all_contacts db current_user = []).
Proof.
  unfold routes.get_birthday_week, routes.get_all_contacts,
    birthday_to_week, get_contacts.
  destruct (query_all (owned_by current_user) db) as [|c l].
  - split; [now split|]. intros s d H. injection H as <- <-. now repeat split.
  - destruct (Date.add_days today 6) as [week|e]; cbn [bind].
    + destruct (birthday_loop today week (c :: l) []) as [happy|e];
        cbn [bind]; split; try (split; discriminate);
        intros s d H; discriminate H.
    + split; [split; discriminate|]. intros s d H. discriminate H.
Qed.

(** ** Users *)

Lemma nodup_map_inj {A B : Type} (f : A -> B) (l : list A) (x y : A) :
  NoDup (map f l) -> In x l -> In y l -> f x = f y -> x = y.
Proof.
  induction l as [|a l IH]; simpl; [easy|].
  intros Hnd Hx Hy Hf. inversion Hnd as [|? ? Ha Hnd']; subst.
  destruct Hx as [<-|Hx], Hy as [<-|Hy]; auto.
  - exfalso. apply Ha. rewrite Hf. now apply in_map.
  - exfalso. apply Ha. rewrite <- Hf. now apply in_map.
Qed.

Lemma has_email_iff (email : string) (u : UserRow.t) :
  has_email email u = true <-> UserRow.email u = email.
Proof. unfold has_email. apply String.eqb_eq. Qed.

Lemma find_map_email (g : UserRow.t -> UserRow.t) (email : string)
  (l : list UserRow.t) :
  (forall u, UserRow.email (g u) = UserRow.email u) ->
  find (has_email email) (map g l)
  = option_map g (find (has_email email) l).
Proof.
  intros Hg. induction l as [|u l IH]; simpl; [reflexivity|].
  unfold has_email at 1 3. rewrite Hg.
  destruct (String.eqb (UserRow.email u) email); [reflexivity|exact IH].
Qed.

(** The row a write changes, under the primary-key constraint. *)
Lemma write_user_split (user : UserRow.t) (f : UserRow.t -> UserRow.t)
  (l1 l2 : list UserRow.t) :
  NoDup (map UserRow.id (l1 ++ user :: l2)) ->
  map (fun u => if UserRow.id u =? UserRow.id user then f u else u)
    (l1 ++ user :: l2)
  = l1 ++ f user :: l2.
Proof.
  intros Hnd.
  assert (Hother : forall x, In x (l1 ++ l2) ->
                     (UserRow.id x =? UserRow.id user) = false).
  { intros x Hx. apply Z.eqb_neq. intros Hid.
    rewrite map_app in Hnd. simpl in Hnd. apply NoDup_remove_2 in Hnd.
    apply Hnd. rewrite <- map_app, <- Hid. now apply in_map. }
  rewrite map_app. simpl. rewrite Z.eqb_refl. f_equal; [|f_equal].
  - rewrite <- (map_id l1) at 2. apply map_ext_in. intros x Hx.
    rewrite Hother; [reflexivity|]. apply in_or_app. now left.
  - rewrite <- (map_id l2) at 2. apply map_ext_in. intros x Hx.
    rewrite Hother; [reflexivity|]. apply in_or_app. now right.
Qed.

Lemma own_email_finds (user : UserRow.t) (db : UserTable) :
  wf_users db -> In user (users db) ->
  get_user_by_email (UserRow.email user) db = Some user.
Proof.
  intros (_ & Hem & _) Hin. unfold get_user_by_email.
  destruct (find (has_email (UserRow.email user)) (users db)) as [x|] eqn:Hf.
  - apply find_some in Hf as [Hx Hp]. apply has_email_iff in Hp.
    now rewrite (nodup_map_inj UserRow.email (users db) x user Hem Hx Hin Hp).
  - pose proof (find_none _ _ Hf user Hin) as Hn.
    unfold has_email in Hn. now rewrite String.eqb_refl in Hn.
Qed.

(** X12 (an email nobody has).  [confirmed_email] and [update_avatar] raise
    [AttributeError] exactly when no user of the table has the email they
    are given: the lookup returns [None] and the attribute is set on it
    unchecked.  They raise nothing else, and with a user of that email they
    return. *)
Theorem unknown_email_raises (email url : string) (db : UserTable) :
  (confirmed_email email db = Raise AttributeError
   <-> forall u, In u (users db) -> UserRow.email u <> email)
  /\ (update_avatar email url db = Raise AttributeError
      <-> forall u, In u (users db) -> UserRow.email u <> email)
  /\ (forall e, confirmed_email email db = Raise e -> e = AttributeError)
  /\ (forall e, update_avatar email url db = Raise e -> e = AttributeError).
Proof.
  unfold confirmed_email, update_avatar, get_user_by_email.
  destruct (find (has_email email) (users db)) as [x|] eqn:Hf.
  - apply find_some in Hf as [Hx Hp]. apply has_email_iff in Hp.
    repeat split; try discriminate; intros H; now elim (H x Hx).
  - assert (Hno : forall u, In u (users db) -> UserRow.email u <> email).
    { intros u Hu He. apply has_email_iff in He.
      pose proof (find_none _ _ Hf u Hu). congruence. }
    repeat split; auto; intros e H; congruence.
Qed.

(** X13 (a write changes one row).  On a table that keeps its constraints,
    for a user [user] of the table that is [l1 ++ user :: l2]:
    [update_token] leaves [l1 ++ user' :: l2] where [user'] is [user] with
    the new token, [confirmed_email] called with the email of [user] leaves
    the same with [user] confirmed, and [update_avatar] the same with the
    avatar set to the link, which is also the user it returns.  No other row
    and no other column is written, and the key sequence stays. *)
Theorem user_writes_one_row (user : UserRow.t) (token : option string)
  (url : string) (db : UserTable) :
  wf_users db -> In user (users db) ->
  exists l1 l2,
    users db = l1 ++ user :: l2
    /\ update_token user token db
       = mkUserTable (l1 ++ UserRow.set_refresh_token user token :: l2)
           (next_user_id db)
    /\ confirmed_email (UserRow.email user) db
       = Ok (mkUserTable (l1 ++ UserRow.set_confirmed user true :: l2)
               (next_user_id db))
    /\ update_avatar (UserRow.email user) url db
       = Ok (UserRow.set_avatar user (Some url),
             mkUserTable (l1 ++ UserRow.set_avatar user (Some url) :: l2)
               (next_user_id db)).
Proof.
  intros Hwf Hin. pose proof Hwf as (Hid & _ & _).
  destruct (in_split _ _ Hin) as (l1 & l2 & Hl). exists l1, l2.
  split; [exact Hl|].
  unfold confirmed_email, update_avatar.
  rewrite (own_email_finds user db Hwf Hin).
  unfold update_token, write_user. rewrite Hl in Hid |- *.
  now rewrite !(write_user_split user _ l1 l2 Hid).
Qed.

Lemma sample_users_wf : wf_users sample_users.
Proof.
  unfold wf_users. simpl. repeat split;
    repeat constructor; simpl; intuition discriminate.
Defined.

Lemma user_writes_one_row_witness :
  wf_users sample_users /\ In ben (users sample_users)
  /\ exists l1 l2,
       users sample_users = l1 ++ ben :: l2
       /\ update_token ben None sample_users
          = mkUserTable (l1 ++ UserRow.set_refresh_token ben None :: l2) 3.
Proof.
  assert (Hin : In ben (users sample_users)) by (simpl; auto).
  refine (conj sample_users_wf (conj Hin _)).
  destruct (user_writes_one_row ben None "https://res.example/ben"
              sample_users sample_users_wf Hin)
    as (l1 & l2 & Hl & Ht & _).
  exists l1, l2. exact (conj Hl Ht).
Defined.

Lemma write_user_keeps {B : Type} (col : UserRow.t -> B) (user : UserRow.t)
  (f : UserRow.t -> UserRow.t) (db : UserTable) :
  (forall u, col (f u) = col u) ->
  map col (users (write_user user f db)) = map col (users db).
Proof.
  intros Hf. unfold write_user. simpl. rewrite map_map.
  apply map_ext. intros u.
  destruct (UserRow.id u =? UserRow.id user); [apply Hf|reflexivity].
Qed.

(** X14 (what the writes on users never change).  [update_token],
    [confirmed_email] and [update_avatar] leave the key, username, email,
    password and creation time of every user as they were, row by row in
    the same order, and the key sequence too: they add no user and drop
    none, and each of them leaves the two columns of the other two as they
    were. *)
Theorem user_writes_keep_credentials (user : UserRow.t)
  (token : option string) (email url : string) (db : UserTable) :
  (map credentials (users (update_token user token db))
   = map credentials (users db)
   /\ map UserRow.confirmed (users (update_token user token db))
      = map UserRow.confirmed (users db)
   /\ map UserRow.avatar (users (update_token user token db))
      = map UserRow.avatar (users db)
   /\ next_user_id (update_token user token db) = next_user_id db)
  /\ (forall db',
        confirmed_email email db = Ok db' ->
        map credentials (users db') = map credentials (users db)
        /\ map UserRow.refresh_token (users db')
           = map UserRow.refresh_token (users db)
        /\ map UserRow.avatar (users db') = map UserRow.avatar (users db)
        /\ next_user_id db' = next_user_id db)
  /\ (forall u db',
        update_avatar email url db = Ok (u, db') ->
        map credentials (users db') = map credentials (users db)
        /\ map UserRow.refresh_token (users db')
           = map UserRow.refresh_token (users db)
        /\ map UserRow.confirmed (users db')
           = map UserRow.confirmed (users db)
        /\ next_user_id db' = next_user_id db).
Proof.
  split; [|split].
  - unfold update_token. repeat split; try apply write_user_keeps;
      reflexivity.
  - unfold confirmed_email. intros db'.
    destruct (get_user_by_email email db) as [x|]; [|discriminate].
    intros H. injection H as <-.
    repeat split; try apply write_user_keeps; reflexivity.
  - unfold update_avatar. intros u db'.
    destruct (get_user_by_email email db) as [x|]; [|discriminate].
    intros H. injection H as <- <-.
    repeat split; try apply write_user_keeps; reflexivity.
Qed.

Lemma existsb_find_none (email : string) (l : list UserRow.t) :
  existsb (has_email email) l = false <-> find (has_email email) l = None.
Proof.
  induction l as [|u l IH]; simpl; [tauto|].
  destruct (has_email email u); simpl; [split; discriminate|exact IH].
Qed.

Lemma find_app_none (email : string) (l1 l2 : list UserRow.t) :
  find (has_email email) l1 = None ->
  find (has_email email) (l1 ++ l2) = find (has_email email) l2.
Proof.
  induction l1 as [|u l1 IH]; simpl; [reflexivity|].
  destruct (has_email email u); [discriminate|exact IH].
Qed.

Lemma find_app_some (email : string) (l1 l2 : list UserRow.t)
  (u : UserRow.t) :
  find (has_email email) l1 = Some u ->
  find (has_email email) (l1 ++ l2) = Some u.
Proof.
  induction l1 as [|x l1 IH]; simpl; [discriminate|].
  destruct (has_email email x); [easy|exact IH].
Qed.

(** X15 (sign-up).  On a table that keeps its constraints, [create_user]
    with an email some user has is refused by the store ([IntegrityError],
    the email column being unique).  With a new email it returns a user
    that a lookup by that email then finds, with the next key of the
    sequence, the username, email and password of the payload stored as
    they are, no refresh token, not confirmed, and as avatar the link the
    avatar library gives or none if the library raises; the lookup of every
    other email is as before and the table keeps its constraints. *)
Theorem create_user_spec (gravatar : string -> result string) (now : Z)
  (body : UserModel.t) (db : UserTable) :
  wf_users db ->
  match get_user_by_email (UserModel.email body) db with
  | Some _ => create_user gravatar now body db = inr IntegrityError
  | None =>
      exists new_user db',
        create_user gravatar now body db = inl (new_user, db')
        /\ get_user_by_email (UserModel.email body) db' = Some new_user
        /\ UserRow.id new_user = next_user_id db
        /\ UserRow.username new_user = Some (UserModel.username body)
        /\ UserRow.email new_user = UserModel.email body
        /\ UserRow.password new_user = UserModel.password body
        /\ UserRow.refresh_token new_user = None
        /\ UserRow.confirmed new_user = false
        /\ UserRow.avatar new_user
           = match gravatar (UserModel.email body) with
             | Ok url => Some url
             | Raise _ => None
             end
        /\ (forall email,
              email <> UserModel.email body ->
              get_user_by_email email db' = get_user_by_email email db)
        /\ wf_users db'
  end.
Proof.
  intros (Hid & Hem & Hlt). unfold create_user, get_user_by_email.
  destruct (find (has_email (UserModel.email body)) (users db)) as [x|]
    eqn:Hf.
  - destruct (existsb _ _) eqn:He; [reflexivity|].
    apply existsb_find_none in He. congruence.
  - rewrite (proj2 (existsb_find_none _ _) Hf).
    eexists _, _. split; [reflexivity|]. simpl.
    split.
    { rewrite (find_app_none _ _ _ Hf). simpl.
      unfold has_email. simpl. now rewrite String.eqb_refl. }
    repeat split.
    + intros email Hne.
      destruct (find (has_email email) (users db)) as [y|] eqn:Hy.
      * now apply find_app_some.
      * rewrite (find_app_none _ _ _ Hy). simpl. unfold has_email. simpl.
        replace (String.eqb (UserModel.email body) email) with false;
          [reflexivity|].
        symmetry. apply String.eqb_neq. congruence.
    + cbn [users next_user_id]. rewrite map_app. simpl.
      apply NoDup_incl_NoDup with
        (l := next_user_id db :: map UserRow.id (users db)).
      * constructor; [|exact Hid]. intros Hin.
        apply in_map_iff in Hin as (y & Hy & Hin).
        rewrite Forall_forall in Hlt. specialize (Hlt y Hin). lia.
      * rewrite List.length_app. simpl. lia.
      * intros z [<-|Hz]; apply in_or_app; simpl; auto.
    + cbn [users next_user_id]. rewrite map_app. simpl.
      apply NoDup_incl_NoDup with
        (l := UserModel.email body :: map UserRow.email (users db)).
      * constructor; [|exact Hem]. intros Hin.
        apply in_map_iff in Hin as (y & Hy & Hin).
        apply has_email_iff in Hy.
        pose proof (find_none _ _ Hf y Hin). congruence.
      * rewrite List.length_app. simpl. lia.
      * intros z [<-|Hz]; apply in_or_app; simpl; auto.
    + cbn [users next_user_id]. apply Forall_app. split.
      * eapply Forall_impl; [|exact Hlt]. simpl. intros; lia.
      * constructor; [simpl; lia|constructor].
Qed.

Lemma create_user_spec_witness :
  wf_users sample_users
  /\ exists new_user db',
       create_user (fun _ => Raise ValueError) 300 carl_signup sample_users
       = inl (new_user, db')
       /\ get_user_by_email "carl@example.com" db' = Some new_user.
Proof.
  refine (conj sample_users_wf _).
  destruct (create_user_spec (fun _ => Raise ValueError) 300 carl_signup
              sample_users sample_users_wf)
    as (new_user & db' & Hc & Hg & _).
  exists new_user, db'. exact (conj Hc Hg).
Defined.

(** X16 (confirming twice).  When [confirmed_email] has returned for an
    email, the same call on the table it left returns that very table:
    the user is confirmed once and for all, and a lookup by the email finds
    a confirmed user. *)
Theorem confirmed_email_twice (email : string) (db db' : UserTable) :
  confirmed_email email db = Ok db' ->
  confirmed_email email db' = Ok db'
  /\ exists user,
       get_user_by_email email db' = Some user
       /\ UserRow.confirmed user = true
       /\ UserRow.email user = email.
Proof.
  intros H. unfold confirmed_email, get_user_by_email in H.
  destruct (find (has_email email) (users db)) as [x|] eqn:Hf;
    [|discriminate].
  injection H as <-.
  pose proof (find_some _ _ Hf) as [_ Hx]. apply has_email_iff in Hx.
  assert (Hfind :
            get_user_by_email email
              (write_user x (fun u => UserRow.set_confirmed u true) db)
            = Some (UserRow.set_confirmed x true)).
  { unfold get_user_by_email, write_user. cbn [users].
    rewrite (find_map_email _ email (users db))
      by (intros u; destruct (UserRow.id u =? UserRow.id x); reflexivity).
    rewrite Hf. simpl. now rewrite Z.eqb_refl. }
  split.
  - unfold confirmed_email. rewrite Hfind. f_equal.
    unfold write_user. cbn [users next_user_id]. f_equal.
    rewrite map_map. apply map_ext. intros u.
    change (UserRow.id (UserRow.set_confirmed x true)) with (UserRow.id x).
    destruct (UserRow.id u =? UserRow.id x) eqn:E; simpl; now rewrite E.
  - exists (UserRow.set_confirmed x true).
    split; [exact Hfind|]. now split.
Qed.

Lemma confirmed_email_twice_witness :
  confirmed_email "ann@example.com" sample_users
  = Ok (mkUserTable [UserRow.set_confirmed ann true; ben] 3)
  /\ confirmed_email "ann@example.com"
       (mkUserTable [UserRow.set_confirmed ann true; ben] 3)
     = Ok (mkUserTable [UserRow.set_confirmed ann true; ben] 3).
Proof.
  exact (conj eq_refl
           (proj1 (confirmed_email_twice "ann@example.com" sample_users _
                     eq_refl))).
Defined.

(** ** The phone check *)

Example phone_of_the_tests :
  phone_number_must_have_12_digits "3800502128506" = Ok "3800502128506".
Proof. reflexivity. Qed.

Example phone_punctuated :
  phone_number_must_have_12_digits "+38(050)212-85-06"
  = Ok "+38(050)212-85-06".
Proof. reflexivity. Qed.

Example phone_too_short :
  phone_number_must_have_12_digits "380502128" = Raise ValueError.
Proof. reflexivity. Qed.

Example phone_letters :
  phone_number_must_have_12_digits "phone: 3800502128506" = Raise ValueError.
Proof. reflexivity. Qed.

Lemma append_assoc (a b c : string) :
  ((a ++ b) ++ c)%string = (a ++ (b ++ c))%string.
Proof. induction a as [|x a IH]; simpl; [reflexivity|now rewrite IH]. Qed.

Lemma digits_append (a b : string) :
  digits (a ++ b)%string = (digits a + digits b)%nat.
Proof. induction a as [|x a IH]; simpl; [reflexivity|rewrite IH; lia]. Qed.

Lemma eats_le (k k' : nat) (f : string -> list string) :
  (k' <= k)%nat -> eats k f -> eats k' f.
Proof.
  intros Hk Hf s rest Hin. destruct (Hf s rest Hin) as (p & Hp & Hd).
  exists p. split; [exact Hp|lia].
Qed.

Lemma eats_seq (k1 k2 : nat) (f g : string -> list string) :
  eats k1 f -> eats k2 g -> eats (k1 + k2) (fun s => flat_map g (f s)).
Proof.
  intros Hf Hg s rest Hin. apply in_flat_map in Hin as (x & Hx & Hr).
  destruct (Hf s x Hx) as (p1 & -> & H1).
  destruct (Hg x rest Hr) as (p2 & -> & H2).
  exists (p1 ++ p2)%string. split; [now rewrite append_assoc|].
  rewrite digits_append. lia.
Qed.

Lemma eats_or_skip (k : nat) (f : string -> list string) :
  eats k f -> eats 0 (fun s => f s ++ [s]).
Proof.
  intros Hf s rest Hin. apply in_app_or in Hin as [Hin|[<-|[]]].
  - destruct (Hf s rest Hin) as (p & Hp & _). exists p. split; [easy|lia].
  - exists EmptyString. split; [reflexivity|simpl; lia].
Qed.

Lemma eats_times (k : nat) (f : string -> list string) (n : nat) :
  eats k f -> eats (n * k) (times f n).
Proof.
  intros Hf. induction n as [|n IH]; simpl.
  - intros s rest [<-|[]]. exists EmptyString. split; [reflexivity|simpl; lia].
  - now apply (eats_seq k (n * k)).
Qed.

Lemma eats_upto (k : nat) (f : string -> list string) (j : nat) :
  eats k f -> eats 0 (upto f j).
Proof.
  intros Hf. induction j as [|j IH]; simpl.
  - intros s rest [<-|[]]. exists EmptyString. split; [reflexivity|simpl; lia].
  - apply (eats_or_skip (k + 0)). now apply eats_seq.
Qed.

Lemma eats_one (p : ascii -> bool) (k : nat) :
  (forall a, p a = true -> (k <= if is_digit a then 1 else 0)%nat) ->
  eats k (one p).
Proof.
  intros Hp [|a s] rest; simpl; [easy|].
  destruct (p a) eqn:Ha; [|easy]. intros [<-|[]].
  exists (String a EmptyString). split; [reflexivity|].
  simpl. specialize (Hp a Ha). lia.
Qed.

Lemma try_match_eats (r : regex) : eats (min_digits r) (try_match r).
Proof.
  induction r as [c| | |r1 IH1 r2 IH2|r IH|n m r IH]; simpl.
  - apply eats_one. intros; lia.
  - apply eats_one. now intros a ->.
  - apply eats_one. intros; lia.
  - now apply eats_seq.
  - now apply eats_or_skip with (k := min_digits r).
  - apply (eats_le (n * min_digits r + 0)); [lia|].
    apply eats_seq; [now apply eats_times|now apply eats_upto with (k := min_digits r)].
Qed.

Lemma local_seq (f g : string -> list string) :
  local f -> local g -> local (fun s => flat_map g (f s)).
Proof.
  intros Hf Hg s rest t Hin. apply in_flat_map in Hin as (x & Hx & Hr).
  apply in_flat_map. exists (x ++ t)%string. split; auto.
Qed.

Lemma local_or_skip (f : string -> list string) :
  local f -> local (fun s => f s ++ [s]).
Proof.
  intros Hf s rest t Hin. apply in_or_app.
  apply in_app_or in Hin as [Hin|[<-|[]]]; [left; auto|right; now left].
Qed.

Lemma local_times (f : string -> list string) (n : nat) :
  local f -> local (times f n).
Proof.
  intros Hf. induction n as [|n IH]; simpl.
  - intros s rest t [<-|[]]. now left.
  - now apply local_seq.
Qed.

Lemma local_upto (f : string -> list string) (j : nat) :
  local f -> local (upto f j).
Proof.
  intros Hf. induction j as [|j IH]; simpl.
  - intros s rest t [<-|[]]. now left.
  - apply local_or_skip. now apply local_seq.
Qed.

Lemma local_one (p : ascii -> bool) : local (one p).
Proof.
  intros [|a s] rest t; simpl; [easy|].
  destruct (p a); [|easy]. intros [<-|[]]. now left.
Qed.

Lemma try_match_local (r : regex) : local (try_match r).
Proof.
  induction r as [c| | |r1 IH1 r2 IH2|r IH|n m r IH]; simpl;
    try apply local_one.
  - now apply local_seq.
  - now apply local_or_skip.
  - apply local_seq; [now apply local_times|now apply local_upto].
Qed.
Lemma re_match_some (r : regex) (s : string) :
  re_match r s <> None <-> exists rest, In rest (try_match r s).
Proof.
  unfold re_match. destruct (try_match r s) as [|x l]; simpl.
  - split; [congruence|intros [rest []]].
  - split; [intros _; exists x; now left|discriminate].
Qed.

Lemma phone_ok_iff (phone : string) :
  phone_number_must_have_12_digits phone = Ok phone
  <-> exists rest, In rest (try_match phone_pattern phone).
Proof.
  rewrite <- re_match_some. unfold phone_number_must_have_12_digits.
  destruct (re_match phone_pattern phone); split; congruence.
Qed.

(** X17 (the phone check reads a prefix).  A phone the check accepts stays
    accepted with any characters added at its end: the pattern is matched at
    the start of the string and what follows the match is not looked at. *)
Theorem phone_check_ignores_tail (phone tail : string) :
  phone_number_must_have_12_digits phone = Ok phone ->
  phone_number_must_have_12_digits (phone ++ tail)%string
  = Ok (phone ++ tail)%string.
Proof.
  rewrite !phone_ok_iff. intros [rest Hin].
  exists (rest ++ tail)%string. now apply try_match_local.
Qed.

Lemma phone_check_ignores_tail_witness :
  phone_number_must_have_12_digits "3800502128506" = Ok "3800502128506"
  /\ phone_number_must_have_12_digits "3800502128506 ext."
     = Ok "3800502128506 ext.".
Proof.
  exact (conj eq_refl
           (phone_check_ignores_tail "3800502128506" " ext." eq_refl)).
Defined.

(** X18 (how many digits the phone check asks for).  A phone the check
    accepts holds at least ten decimal digits, and ten are enough: there is
    a phone of ten digits that the check accepts and whose length is within
    the 12 to 20 characters of the field, although the message of the check
    asks for more than 12 digits. *)
Theorem phone_check_ten_digits (phone : string) :
  phone_number_must_have_12_digits phone = Ok phone ->
  (10 <= digits phone)%nat
  /\ exists short,
       phone_number_must_have_12_digits short = Ok short
       /\ length_between 12 20 short = true
       /\ digits short = 10%nat.
Proof.
  intros H. split.
  - apply phone_ok_iff in H as [rest Hin].
    destruct (try_match_eats phone_pattern phone rest Hin) as (p & -> & Hd).
    rewrite digits_append. simpl in Hd. lia.
  - exists "38(05)21-28-50". now repeat split.
Qed.

Lemma phone_check_ten_digits_witness :
  phone_number_must_have_12_digits "3800502128506" = Ok "3800502128506"
  /\ (10 <= digits "3800502128506")%nat.
Proof.
  exact (conj eq_refl
           (proj1 (phone_check_ten_digits "3800502128506" eq_refl))).
Defined.

Lemma length_truthy (lo hi : nat) (s : string) :
  (1 <= lo)%nat -> length_between lo hi s = true -> truthy (Some s) = true.
Proof.
  unfold length_between. intros Hlo H. apply andb_prop in H as [H _].
  apply Nat.leb_le in H. destruct s; simpl in *; [lia|reflexivity].
Qed.

Lemma scan_finds_last (sel : Contact.t -> option string) (v : string)
  (user : User.t) (l : list Contact.t) (c : Contact.t) :
  sel c = Some v -> owned_by user c = true ->
  exists x,
    find (fun c => col_eq (sel c) (Some v) && owned_by user c) (l ++ [c])
    = Some x
    /\ sel x = Some v /\ owned_by user x = true.
Proof.
  intros Hs Ho.
  destruct (find _ (l ++ [c])) as [x|] eqn:Hf.
  - exists x. split; [reflexivity|].
    apply find_some in Hf as [_ Hp]. apply andb_prop in Hp as [Hc Hx].
    split; [|exact Hx]. destruct (sel x) as [a|]; simpl in Hc; [|discriminate].
    apply String.eqb_eq in Hc. now subst.
  - assert (Hin : In c (l ++ [c])) by (apply in_or_app; right; now left).
    pose proof (find_none _ _ Hf c Hin) as Hn. simpl in Hn.
    rewrite Hs, Ho in Hn. simpl in Hn. now rewrite String.eqb_refl in Hn.
Qed.

(** X19 (a contact made from a valid payload can be searched for).  When a
    payload passes the checks of [ContactModel], whatever the email check
    is, then after [create_contact] a search of the same user for the name
    of the payload returns a contact of that user with that name, whatever
    lastname and email the search is given, and a search with no name for
    the lastname of the payload returns a contact of that user with that
    lastname: the name and the lastname have at least three characters and
    so count as supplied. *)
Theorem valid_contact_is_found (store : Store)
  (email_str : string -> bool) (contact : ContactModel.t) (user : User.t)
  (db : Session) :
  ContactModel_valid email_str contact = true ->
  let db' := snd (create_contact contact user db) in
  (forall lastname email,
     exists c,
       search_data store user db' (Some (ContactModel.name contact))
         lastname email = Some c
       /\ Contact.name c = Some (ContactModel.name contact)
       /\ owned_by user c = true)
  /\ (forall email,
        exists c,
          search_data store user db' None
            (Some (ContactModel.lastname contact)) email = Some c
          /\ Contact.lastname c = Some (ContactModel.lastname contact)
          /\ owned_by user c = true).
Proof.
  unfold ContactModel_valid. intros H.
  do 6 (apply andb_prop in H; destruct H as [H ?]).
  assert (Hn : truthy (Some (ContactModel.name contact)) = true)
    by (eapply length_truthy; [|eassumption]; lia).
  assert (Hl : truthy (Some (ContactModel.lastname contact)) = true)
    by (eapply length_truthy; [|eassumption]; lia).
  cbn zeta. unfold search_data, query_first. simpl rows. split.
  - intros lastname email. rewrite Hn.
    apply (scan_finds_last Contact.name); [reflexivity|].
    now apply owned_by_owner.
  - intros email. simpl (truthy None). cbv iota. rewrite Hl.
    apply (scan_finds_last Contact.lastname); [reflexivity|].
    now apply owned_by_owner.
Qed.

Lemma valid_contact_is_found_witness :
  ContactModel_valid (fun _ => true) bill_payload = true
  /\ exists c,
       search_data reading_store bob
         (snd (create_contact bill_payload bob sample_db))
         (Some "Bill") (Some "X") None = Some c
       /\ Contact.name c = Some "Bill"
       /\ owned_by bob c = true.
Proof.
  exact (conj eq_refl
           (proj1 (valid_contact_is_found reading_store (fun _ => true)
                     bill_payload bob sample_db eq_refl) (Some "X") None)).
Defined.
